(** * distribute_reads_to_targets_bwa.py: hit index and read distribution

    A shallow embedding of [read_sorting], [write_paired_seqs],
    [write_single_seqs] and [distribute_reads], with the Python string
    operations they use, and the properties of the hit index and of the
    distribution pass.

    Modelling conventions.
    - A Python [str] is a [string]; a character is a code point below 256.
    - [read_hit_dict] is a [gmap string (list string)].
    - A read source is the list of [(title, seq, qual)] triples that
      [FastqGeneralIterator] yields for the file.
    - The program's effects on the file system are recorded as a log of
      requests ([Makedirs], [Open], [Write], [Close]); a run returns its log
      together with a normal result or the exception that ended it.  The
      log is what the program asks of the operating system when each request
      is served: a request that the system refuses ends the real run there,
      with the requests before it issued.  [Os.mkdir_p] gives the handling
      of such a refusal by [mkdir_p].
    - A state of the file system ([fs]) maps the path of each file to its
      content; the path stands for the file, as it does when the targets are
      plain directory names ([plain]). *)

From Stdlib Require Import String Ascii.
From stdpp Require Import base option list gmap strings.

Local Open Scope string_scope.
Local Open Scope list_scope.

(** ** Python string operations *)

Module Py.

(** The code points below 256 for which [str.isspace()] holds. *)
Definition isspace (c : ascii) : bool :=
  let n := nat_of_ascii c in
  ((9 <=? n)%nat && (n <=? 13)%nat) || ((28 <=? n)%nat && (n <=? 32)%nat)
  || (n =? 133)%nat || (n =? 160)%nat.

(** [s.split()]: the maximal runs of non-whitespace characters. *)
Fixpoint split (s : string) : list string :=
  match s with
  | EmptyString => []
  | String c rest =>
      if isspace c then split rest
      else match rest with
           | EmptyString => [String c EmptyString]
           | String c' _ =>
               if isspace c' then String c EmptyString :: split rest
               else match split rest with
                    | f :: fs => String c f :: fs
                    | [] => [String c EmptyString]
                    end
           end
  end.

(** [s.split(sep)] for a one-character separator. *)
Fixpoint split_sep (sep : ascii) (s : string) : list string :=
  match s with
  | EmptyString => [EmptyString]
  | String c rest =>
      if Ascii.eqb c sep then EmptyString :: split_sep sep rest
      else match split_sep sep rest with
           | f :: fs => String c f :: fs
           | [] => [String c EmptyString]
           end
  end.

(** [s.endswith(suffix)] *)
Definition endswith (s suffix : string) : bool :=
  (String.length suffix <=? String.length s)%nat
  && String.eqb
       (substring (String.length s - String.length suffix)
                  (String.length suffix) s)
       suffix.

(** [s[:-n]] *)
Definition drop_last (n : nat) (s : string) : string :=
  substring 0 (String.length s - n) s.

(** [s.startswith(prefix)] *)
Definition startswith (s pre : string) : bool := String.prefix pre s.

(** [os.path.join(a, b)] of posixpath. *)
Definition path_join (a b : string) : string :=
  if startswith b "/" then b
  else if String.eqb a "" || endswith a "/" then a +:+ b
  else a +:+ "/" +:+ b.

(** The line feed. *)
Definition nl : string := String (ascii_of_nat 10) EmptyString.

End Py.

(** ** Exceptions and the effect monad *)

Inductive exn : Type :=
  | IndexError
  | StopIteration
  | UnboundLocalError.

Inductive fmode : Type :=
  | ModeAppend   (* 'a' *)
  | ModeTruncate (* 'w' *).

Inductive event : Type :=
  | Makedirs (path : string)
  | Open (path : string) (m : fmode)
  | Write (path : string) (text : string)
  | Close (path : string).

Global Instance exn_eq_dec : EqDecision exn.
Proof. solve_decision. Defined.
Global Instance fmode_eq_dec : EqDecision fmode.
Proof. solve_decision. Defined.
Global Instance event_eq_dec : EqDecision event.
Proof. solve_decision. Defined.

(** A computation: the requests it issued, and how it ended. *)
Definition M (A : Type) : Type := list event * (exn + A).

Definition ret {A} (a : A) : M A := ([], inr a).
Definition raise {A} (e : exn) : M A := ([], inl e).
Definition tell (l : list event) : M unit := (l, inr tt).
Definition bind {A B} (m : M A) (f : A → M B) : M B :=
  match m with
  | (l1, inl e) => (l1, inl e)
  | (l1, inr a) => let '(l2, r) := f a in (l1 ++ l2, r)
  end.

(** [M] with stdpp's monad notations: [x ← m; k] and [m;; k]. *)
Global Instance M_ret : MRet M := @ret.
Global Instance M_bind : MBind M := λ A B f m, bind m f.

Definition log {A} (m : M A) : list event := m.1.
Definition outcome {A} (m : M A) : exn + A := m.2.

(** [l[i]] for [i >= 0] *)
Definition item {A} (l : list A) (i : nat) : M A :=
  match l !! i with
  | Some x => ret x
  | None => raise IndexError
  end.

(** [l[-1]] *)
Definition last_item {A} (l : list A) : M A :=
  match last l with
  | Some x => ret x
  | None => raise IndexError
  end.

(** ** [read_sorting] *)

(** The body of the loop over [bwa_results]: one line updates the dict. *)
Definition read_sorting_line (read_hit_dict : gmap string (list string))
    (line : string) : M (gmap string (list string)) :=
  let line := Py.split line in
  readID ← item line 0;
  ref ← item line 2;
  target ← last_item (Py.split_sep "-" ref);
  match read_hit_dict !! readID with
  | Some targets =>
      if decide (target ∈ targets) then ret read_hit_dict
      else ret (<[readID := targets ++ [target]]> read_hit_dict)
  | None => ret (<[readID := [target]]> read_hit_dict)
  end.

Fixpoint read_sorting_loop (read_hit_dict : gmap string (list string))
    (bwa_results : list string) : M (gmap string (list string)) :=
  match bwa_results with
  | [] => ret read_hit_dict
  | line :: rest =>
      d ← read_sorting_line read_hit_dict line;
      read_sorting_loop d rest
  end.

(** [read_sorting], from the lines that [samtools view -F 4] printed. *)
Definition read_sorting (bwa_results : list string)
    : M (gmap string (list string)) :=
  read_sorting_loop ∅ bwa_results.

(** ** Writing the per-target files *)

(** [mkdir_p]: [os.makedirs], an existing directory being accepted. *)
Definition mkdir_p (path : string) : M unit := tell [Makedirs path].

(** [open(path, mode)]; the file object is identified with its path. *)
Definition fopen (path : string) (m : fmode) : M string :=
  tell [Open path m];; ret path.
Definition fwrite (outfile text : string) : M unit := tell [Write outfile text].
Definition fclose (outfile : string) : M unit := tell [Close outfile].

(** [">{}\n{}\n".format(ID, Seq)] *)
Definition fasta_record (ID Seq : string) : string :=
  ">" +:+ ID +:+ Py.nl +:+ Seq +:+ Py.nl.

(** ["@{}\n{}\n{}\n{}\n".format(ID, Seq, '+', Qual)] *)
Definition fastq_record (ID Seq Qual : string) : string :=
  "@" +:+ ID +:+ Py.nl +:+ Seq +:+ Py.nl +:+ "+" +:+ Py.nl +:+ Qual +:+ Py.nl.

Definition write_paired_seqs (target ID1 Seq1 Qual1 ID2 Seq2 Qual2 : string)
    (single merged : bool) : M unit :=
  mkdir_p target;;
  if single then
    (if merged then
       outfile ← fopen (Py.path_join target (target +:+ "_interleaved.fastq"))
                       ModeAppend;
       fwrite outfile (fastq_record ID1 Seq1 Qual1);;
       fwrite outfile (fastq_record ID2 Seq2 Qual2);;
       fclose outfile
     else ret tt);;
    outfile ← fopen (Py.path_join target (target +:+ "_interleaved.fasta"))
                    ModeAppend;
    fwrite outfile (fasta_record ID1 Seq1);;
    fwrite outfile (fasta_record ID2 Seq2);;
    fclose outfile
  else
    outfile1 ← fopen (Py.path_join target (target +:+ "_1.fasta")) ModeAppend;
    fwrite outfile1 (fasta_record ID1 Seq1);;
    outfile2 ← fopen (Py.path_join target (target +:+ "_2.fasta")) ModeAppend;
    fwrite outfile2 (fasta_record ID2 Seq2);;
    fclose outfile1;;
    fclose outfile2.

Definition write_single_seqs (target ID1 Seq1 : string) : M unit :=
  mkdir_p target;;
  outfile ← fopen (Py.path_join target (target +:+ "_unpaired.fasta"))
                  ModeAppend;
  fwrite outfile (fasta_record ID1 Seq1);;
  fclose outfile.

(** ** [distribute_reads] *)

(** What [FastqGeneralIterator] yields: [(title, seq, qual)]. *)
Definition record : Type := string * string * string.

(** A [for] loop over a list. *)
Fixpoint for_each {A} (l : list A) (body : A → M unit) : M unit :=
  match l with
  | [] => ret tt
  | x :: rest => body x;; for_each rest body
  end.

(** [next(it)]: [None] is a name that was never bound. *)
Definition next {A} (it : option (list A)) : M (A * list A) :=
  match it with
  | None => raise UnboundLocalError
  | Some [] => raise StopIteration
  | Some (x :: rest) => ret (x, rest)
  end.

(** The literals ["\1"] and ["\2"] of the single-end branch are octal
    escapes: the one-character strings of code points 1 and 2. *)
Definition esc1 : string := String (ascii_of_nat 1) EmptyString.
Definition esc2 : string := String (ascii_of_nat 2) EmptyString.

(** Lines 89-90: the suffix test of the single-end branch. *)
Definition strip_single (ID1 : string) : string :=
  if Py.endswith ID1 esc1 || Py.endswith ID1 esc2
  then Py.drop_last 2 ID1 else ID1.

(** Lines 105-106 and 109-110: the suffix test of the paired branch. *)
Definition strip_paired (ID : string) : string :=
  if Py.endswith ID "/1" || Py.endswith ID "/2"
  then Py.drop_last 2 ID else ID.

(** Lines 87-93: the body of the single-end loop. *)
Definition single_body (read_hit_dict : gmap string (list string))
    (rec : record) : M unit :=
  let '(ID1_long, Seq1, Qual1) := rec in
  ID1 ← item (Py.split ID1_long) 0;
  let ID1 := strip_single ID1 in
  match read_hit_dict !! ID1 with
  | Some targets =>
      for_each targets (λ target, write_single_seqs target ID1 Seq1)
  | None => ret tt
  end.

(** Lines 104-118: the body of the paired loop after [next(iterator2)]. *)
Definition paired_body (read_hit_dict : gmap string (list string))
    (merged : bool) (rec1 rec2 : record) : M unit :=
  let '(ID1_long, Seq1, Qual1) := rec1 in
  let '(ID2_long, Seq2, Qual2) := rec2 in
  ID1 ← item (Py.split ID1_long) 0;
  let ID1 := strip_paired ID1 in
  ID2 ← item (Py.split ID2_long) 0;
  let ID2 := strip_paired ID2 in
  match read_hit_dict !! ID1 with
  | Some targets =>
      for_each targets (λ target,
        write_paired_seqs target ID1 Seq1 Qual1 ID2 Seq2 Qual2 true merged)
  | None =>
      match read_hit_dict !! ID2 with
      | Some targets =>
          for_each targets (λ target,
            write_paired_seqs target ID1 Seq1 Qual1 ID2 Seq2 Qual2 true merged)
      | None => ret tt
      end
  end.

(** Lines 100-118: the loop over [iterator1] that advances [iterator2]
    once per iteration. *)
Fixpoint paired_loop (read_hit_dict : gmap string (list string))
    (merged : bool) (iterator1 : list record)
    (iterator2 : option (list record)) : M unit :=
  match iterator1 with
  | [] => ret tt
  | rec1 :: iterator1' =>
      '(rec2, iterator2') ← next iterator2;
      paired_body read_hit_dict merged rec1 rec2;;
      paired_loop read_hit_dict merged iterator1' (Some iterator2')
  end.

(** [distribute_reads]; [readfiles] holds the records of each file.  The
    argument [single] is accepted and not used: [write_paired_seqs] is called
    with its default. *)
Definition distribute_reads (readfiles : list (list record))
    (read_hit_dict : gmap string (list string)) (single merged : bool)
    : M unit :=
  iterator1 ← item readfiles 0;
  if decide (length readfiles = 1) then
    for_each iterator1 (single_body read_hit_dict)
  else
    let iterator2 :=
      if decide (length readfiles = 2) then readfiles !! 1 else None in
    paired_loop read_hit_dict merged iterator1 iterator2.

(** ** The file system that serves the requests *)

Record fs : Type := Fs { dirs : gset string; files : gmap string string }.

Definition content (st : fs) (path : string) : string :=
  default "" (files st !! path).

Definition apply_event (st : fs) (e : event) : fs :=
  match e with
  | Makedirs p => Fs ({[p]} ∪ dirs st) (files st)
  | Open p ModeAppend => Fs (dirs st) (<[p := content st p]> (files st))
  | Open p ModeTruncate => Fs (dirs st) (<[p := ""]> (files st))
  | Write p text => Fs (dirs st) (<[p := content st p +:+ text]> (files st))
  | Close p => st
  end.

Definition apply_log (st : fs) (l : list event) : fs := foldl apply_event st l.

(** The state of the file system after a run started in [st]. *)
Definition run_on {A} (st : fs) (m : M A) : fs := apply_log st (log m).

(** ** Specification-side definitions *)

(** Deduplication that keeps first occurrences, in order. *)
Fixpoint dedup_first (l : list string) : list string :=
  match l with
  | [] => []
  | x :: rest => x :: filter (λ y, y ≠ x) (dedup_first rest)
  end.

Fixpoint has_char (c : ascii) (s : string) : bool :=
  match s with
  | EmptyString => false
  | String c' rest => Ascii.eqb c' c || has_char c rest
  end.

(** The part of [s] after its last [sep]; all of [s] when it has none. *)
Fixpoint after_last (sep : ascii) (s : string) : string :=
  match s with
  | EmptyString => EmptyString
  | String c rest =>
      if has_char sep rest then after_last sep rest
      else if Ascii.eqb c sep then rest else s
  end.

(** The (read, target) pair that an alignment line stands for. *)
Definition hit (line : string) : option (string * string) :=
  match Py.split line with
  | readID :: _ :: ref :: _ => Some (readID, after_last "-" ref)
  | _ => None
  end.

(** The targets that [lines] list for read [r], in order, with repeats. *)
Definition targets_of (r : string) (lines : list string) : list string :=
  omap (λ line, '(r', t) ← hit line; if decide (r' = r) then Some t else None)
       lines.

(** The requests of one paired write with [single=True]. *)
Definition paired_events (target ID1 Seq1 Qual1 ID2 Seq2 Qual2 : string)
    (merged : bool) : list event :=
  let fq := Py.path_join target (target +:+ "_interleaved.fastq") in
  let fa := Py.path_join target (target +:+ "_interleaved.fasta") in
  Makedirs target
  :: (if merged
      then [Open fq ModeAppend;
            Write fq (fastq_record ID1 Seq1 Qual1);
            Write fq (fastq_record ID2 Seq2 Qual2);
            Close fq]
      else [])
  ++ [Open fa ModeAppend;
      Write fa (fasta_record ID1 Seq1);
      Write fa (fasta_record ID2 Seq2);
      Close fa].

(** The requests of one single-end write. *)
Definition single_events (target ID1 Seq1 : string) : list event :=
  let fa := Py.path_join target (target +:+ "_unpaired.fasta") in
  [Makedirs target; Open fa ModeAppend; Write fa (fasta_record ID1 Seq1);
   Close fa].

(** A record whose title has at least one field. *)
Definition has_field (rec : record) : Prop := Py.split rec.1.1 ≠ [].

Global Instance has_field_dec rec : Decision (has_field rec).
Proof. unfold has_field. apply _. Defined.

(** The first field of a title ([""] when there is none). *)
Definition first_field (title : string) : string :=
  default "" (Py.split title !! 0).

(** The targets that a pair goes to: those of identifier 1 when it is a key,
    else those of identifier 2. *)
Definition pair_targets (d : gmap string (list string)) (ID1 ID2 : string)
    : list string :=
  match d !! ID1 with
  | Some ts => ts
  | None => default [] (d !! ID2)
  end.

(** The requests of one iteration of the paired loop on well-formed
    records. *)
Definition pair_events (d : gmap string (list string)) (merged : bool)
    (rec1 rec2 : record) : list event :=
  let ID1 := strip_paired (first_field rec1.1.1) in
  let ID2 := strip_paired (first_field rec2.1.1) in
  flat_map (λ t, paired_events t ID1 rec1.1.2 rec1.2 ID2 rec2.1.2 rec2.2 merged)
           (pair_targets d ID1 ID2).

(** The requests of one iteration of the single-end loop on a well-formed
    record. *)
Definition read_events (d : gmap string (list string)) (rec : record)
    : list event :=
  let ID1 := strip_single (first_field rec.1.1) in
  flat_map (λ t, single_events t ID1 rec.1.2) (default [] (d !! ID1)).

(** ** Auxiliary definitions of the proofs and scenarios *)

(** One step of the dict update: lines 43-48. *)
Definition add_target (ts : list string) (t : string) : list string :=
  if decide (t ∈ ts) then ts else ts ++ [t].

Definition add_targets (ts new : list string) : list string :=
  foldl add_target ts new.

Definition add_hit (d : gmap string (list string)) (r t : string)
    : gmap string (list string) :=
  match d !! r with
  | Some ts => if decide (t ∈ ts) then d else <[r := ts ++ [t]]> d
  | None => <[r := [t]]> d
  end.

(** What the dict holds for [r] once [new] has been added to [o]. *)
Definition extend (o : option (list string)) (new : list string)
    : option (list string) :=
  match new with
  | [] => o
  | _ => Some (add_targets (default [] o) new)
  end.

(** The three alignment lines of the scenario: read, flag, reference. *)
Definition example_hits : list string :=
  ["readA 0 target-5968"; "readA 16 target-5968"; "readA 0 target-6128"].

(** The path of the unpaired FASTA file of a target. *)
Definition unpaired_path (target : string) : string :=
  Py.path_join target (target +:+ "_unpaired.fasta").

(** The end-to-end scenario: [readB] appears nowhere. *)
Definition example_index : gmap string (list string) :=
  <["readC" := ["5968"; "6128"]]> {[ "readA" := ["5968"] ]}.

Definition example_reads : list record :=
  [("readA", "AAAA", "IIII"); ("readB", "CCCC", "IIII");
   ("readC", "GGGG", "IIII")].

(** The body of the paired loop on a pair of records. *)
Definition pair_step (d : gmap string (list string)) (merged : bool)
    (p : record * record) : M unit :=
  paired_body d merged p.1 p.2.

(** How the paired loop ends once the common prefix is processed. *)
Definition loop_end (n1 n2 : nat) : M unit :=
  if decide (n1 ≤ n2)%nat then ret tt else raise StopIteration.

(** A request that does not truncate a file. *)
Definition append_only (e : event) : bool :=
  match e with
  | Open _ ModeTruncate => false
  | _ => true
  end.

(** The text that a log writes to [path], in order. *)
Fixpoint appended (l : list event) (path : string) : string :=
  match l with
  | [] => ""
  | Write q text :: rest =>
      if decide (q = path) then text +:+ appended rest path
      else appended rest path
  | _ :: rest => appended rest path
  end.

(** Whether a log opens or writes [path]. *)
Fixpoint touched (l : list event) (path : string) : bool :=
  match l with
  | [] => false
  | Open q _ :: rest | Write q _ :: rest =>
      bool_decide (q = path) || touched rest path
  | _ :: rest => touched rest path
  end.

(** A computation all of whose requests are append-only. *)
Definition appends_only {A} (m : M A) : Prop :=
  forallb append_only (log m) = true.

(** Whether a string holds a whitespace character. *)
Fixpoint has_space (s : string) : bool :=
  match s with
  | EmptyString => false
  | String c rest => Py.isspace c || has_space rest
  end.

Definition interleaved_fasta (target : string) : string :=
  Py.path_join target (target +:+ "_interleaved.fasta").

Definition interleaved_fastq (target : string) : string :=
  Py.path_join target (target +:+ "_interleaved.fastq").

(** The read identifiers that [lines] name, in order, with repeats. *)
Definition read_ids (lines : list string) : list string :=
  omap (λ line, fst <$> hit line) lines.

(** The two files of a target in split mode. *)
Definition split_fasta1 (target : string) : string :=
  Py.path_join target (target +:+ "_1.fasta").

Definition split_fasta2 (target : string) : string :=
  Py.path_join target (target +:+ "_2.fasta").

(** A target that the index lists under some key. *)
Definition index_target (d : gmap string (list string)) (t : string) : Prop :=
  ∃ k ts, d !! k = Some ts ∧ t ∈ ts.

(** A request that creates the directory of [target], or that opens for
    appending, writes or closes one of [paths]. *)
Definition event_of_target (e : event) (target : string)
    (paths : list string) : Prop :=
  e = Makedirs target
  ∨ ∃ p, p ∈ paths
         ∧ (e = Open p ModeAppend ∨ (∃ text, e = Write p text) ∨ e = Close p).

(** The files of a target that a run over [n] read files may write. *)
Definition mode_paths (n : nat) (merged : bool) (t : string) : list string :=
  if decide (n = 1%nat) then [unpaired_path t]
  else interleaved_fasta t :: (if merged then [interleaved_fastq t] else []).

(** [main] after argument parsing: [bwa_results] are the lines that
    [samtools view -F 4] printed for [args.bam_filename], [readfiles] the
    records of the files [args.readfiles], [merged] the flag [--merged].
    The three [print] calls write to standard output only; they issue no
    request and are not recorded. *)
Definition main (bwa_results : list string) (readfiles : list (list record))
    (merged : bool) : M unit :=
  read_hit_dict ← read_sorting bwa_results;
  distribute_reads readfiles read_hit_dict true merged.

(** The targets that the alignment lines give for a read, each once, in
    order of first appearance. *)
Definition hits_of (lines : list string) (r : string) : list string :=
  dedup_first (targets_of r lines).

(** ** [mkdir_p] over the operating system *)

Module Os.

(** [errno.EEXIST] *)
Definition EEXIST : nat := 17.

Section mkdir_p.
Context {state : Type}.

(** [os.makedirs(path)]: the state it leaves and, when it raised [OSError],
    the [errno] of the exception. *)
Variable makedirs : state → string → state * option nat.

(** [os.path.isdir(path)] *)
Variable isdir : state → string → bool.

(** Lines 21-28: an [OSError] of [os.makedirs] is passed over when its
    [errno] is [EEXIST] and the path is a directory, and raised again
    otherwise. *)
Definition mkdir_p (st : state) (path : string) : state * option nat :=
  match makedirs st path with
  | (st', None) => (st', None)
  | (st', Some e) =>
      if bool_decide (e = EEXIST) && isdir st' path then (st', None)
      else (st', Some e)
  end.

End mkdir_p.

(** A file system of one level, for the scenarios: the names of its
    directories and of its regular files.  A name in use makes [makedirs]
    fail with [EEXIST]. *)
Definition flat_makedirs (st : gset string * gset string) (path : string)
    : gset string * gset string * option nat :=
  if bool_decide (path ∈ st.1 ∪ st.2) then (st, Some EEXIST)
  else (({[path]} ∪ st.1, st.2), None).

Definition flat_isdir (st : gset string * gset string) (path : string) : bool :=
  bool_decide (path ∈ st.1).

End Os.

(** The concatenation of a list of texts. *)
Definition join (texts : list string) : string := foldr String.append "" texts.

(** What [os.path.join(a, a + x)] puts in front of [x], for an [x] that
    does not start with a slash. *)
Definition path_core (a : string) : string :=
  match a with
  | EmptyString => ""
  | String _ _ =>
      if Py.startswith a "/" then a
      else if Py.endswith a "/" then a +:+ a
      else a +:+ "/" +:+ a
  end.

(** The identifier under which the single-end branch looks a record up. *)
Definition single_key (rec : record) : string :=
  strip_single (first_field rec.1.1).

(** The targets that a pair goes to under the index of [lines]: those of
    mate 1's identifier, or those of mate 2's when mate 1 has none. *)
Definition pair_hits (lines : list string) (p : record * record)
    : list string :=
  match hits_of lines (strip_paired (first_field p.1.1.1)) with
  | [] => hits_of lines (strip_paired (first_field p.2.1.1))
  | ts => ts
  end.

(** The two FASTA records of a pair, mate 1 first. *)
Definition pair_fasta (p : record * record) : string :=
  fasta_record (strip_paired (first_field p.1.1.1)) p.1.1.2
  +:+ fasta_record (strip_paired (first_field p.2.1.1)) p.2.1.2.

(** The two FASTQ records of a pair, mate 1 first. *)
Definition pair_fastq (p : record * record) : string :=
  fastq_record (strip_paired (first_field p.1.1.1)) p.1.1.2 p.1.2
  +:+ fastq_record (strip_paired (first_field p.2.1.1)) p.2.1.2 p.2.2.

(** Two records with the same first title field (or both without one) and
    the same sequence. *)
Definition same_read (r r' : record) : Prop :=
  Py.split r.1.1 !! 0%nat = Py.split r'.1.1 !! 0%nat ∧ r.1.2 = r'.1.2.

(** The read identifier in the words of the specification: the first
    whitespace-delimited field of the title, without a trailing [/1] or
    [/2]. *)
Definition spec_read_id (title : string) : string :=
  let f := first_field title in
  if Py.endswith f "/1" || Py.endswith f "/2" then Py.drop_last 2 f else f.

(** The last character of a string. *)
Fixpoint last_char (s : string) : option ascii :=
  match s with
  | EmptyString => None
  | String c rest =>
      match rest with
      | EmptyString => Some c
      | String _ _ => last_char rest
      end
  end.

(** A string without its last two characters. *)
Fixpoint without_last2 (s : string) : string :=
  match s with
  | EmptyString => EmptyString
  | String c rest =>
      match rest with
      | String _ (String _ _) => String c (without_last2 rest)
      | _ => EmptyString
      end
  end.

(** What the single-end branch makes of the first field [f] of a title, said
    without [strip_single]: [f] as it is, unless its last character has code
    point 1 or 2, when its last two characters go.  A trailing [/1] or [/2]
    stays. *)
Definition single_end_id (f : string) : string :=
  match last_char f with
  | Some c =>
      if (nat_of_ascii c =? 1)%nat || (nat_of_ascii c =? 2)%nat
      then without_last2 f else f
  | None => f
  end.

(** A target that is a plain directory name: not empty, not [.] or [..],
    and without a slash.  Its files are [target/target_...], and no other
    target names the same files. *)
Definition plain (t : string) : bool :=
  negb (String.eqb t "") && negb (String.eqb t ".") && negb (String.eqb t "..")
  && negb (has_char "/" t).

(** Every target that the alignment lines name is a plain name. *)
Definition plain_targets (lines : list string) : Prop :=
  Forall (λ line, match hit line with
                  | Some (_, t) => plain t = true
                  | None => True
                  end) lines.

(** ** Laws of the effect monad *)

Section monad_laws.
Context {A B C : Type}.

Lemma bind_ret_l (a : A) (f : A → M B) : (ret a ≫= f) = f a.
Proof. unfold mbind, M_bind, bind, ret. by destruct (f a). Qed.

Lemma bind_raise (e : exn) (f : A → M B) : (raise e ≫= f) = raise e.
Proof. done. Qed.

Lemma bind_ret_r (m : M A) : (m ≫= ret) = m.
Proof.
  destruct m as [l [e|a]]; [done|].
  unfold mbind, M_bind, bind, ret. by rewrite app_nil_r.
Qed.

Lemma bind_assoc (m : M A) (f : A → M B) (g : B → M C) :
  ((m ≫= f) ≫= g) = (m ≫= λ a, f a ≫= g).
Proof.
  destruct m as [l [e|a]]; [done|].
  unfold mbind, M_bind, bind.
  destruct (f a) as [l2 [e2|b]]; [done|].
  destruct (g b) as [l3 r3]. by rewrite app_assoc.
Qed.

Lemma bind_ok (l : list event) (a : A) (f : A → M B) :
  ((l, inr a) ≫= f) = (l ++ log (f a), outcome (f a)).
Proof. unfold mbind, M_bind, bind. by destruct (f a). Qed.

Lemma bind_err (l : list event) (e : exn) (f : A → M B) :
  ((l, inl e) ≫= f) = (l, inl e).
Proof. done. Qed.
End monad_laws.

Lemma bind_ret_tt (m : M unit) : (m;; ret tt) = m.
Proof.
  destruct m as [l [e|[]]]; [done|].
  unfold mbind, M_bind, bind, ret. by rewrite app_nil_r.
Qed.

(** ** The string operations *)

Lemma string_app_cons c (s t : string) : String c s +:+ t = String c (s +:+ t).
Proof. reflexivity. Qed.

Lemma string_app_nil_r (s : string) : s +:+ "" = s.
Proof.
  induction s as [|c s IH]; [done|]. by rewrite string_app_cons, IH.
Qed.

Lemma string_app_assoc (s1 s2 s3 : string) :
  (s1 +:+ s2) +:+ s3 = s1 +:+ s2 +:+ s3.
Proof.
  induction s1 as [|c s1 IH]; [done|]. by rewrite !string_app_cons, IH.
Qed.

Lemma string_app_length (s1 s2 : string) :
  String.length (s1 +:+ s2) = (String.length s1 + String.length s2)%nat.
Proof.
  induction s1 as [|c s1 IH]; [done|].
  rewrite string_app_cons. cbn [String.length]. by rewrite IH.
Qed.

Lemma string_app_id_r (s a : string) : s +:+ a = s → a = "".
Proof.
  intros H. apply (f_equal String.length) in H.
  rewrite string_app_length in H. destruct a; [done|simpl in H; lia].
Qed.

Lemma split_sep_nonempty sep s : Py.split_sep sep s ≠ [].
Proof. destruct s as [|c s]; simpl; [done|]. by repeat case_match. Qed.

Lemma split_sep_no_sep sep s :
  has_char sep s = false → Py.split_sep sep s = [s].
Proof.
  induction s as [|c s IH]; simpl; [done|].
  intros [Hc Hs]%orb_false_elim. rewrite Hc, (IH Hs). done.
Qed.

Lemma split_sep_two sep s :
  has_char sep s = true → ∃ f g fs, Py.split_sep sep s = f :: g :: fs.
Proof.
  induction s as [|c s IH]; simpl; [done|].
  destruct (Ascii.eqb c sep) eqn:Hc; simpl.
  - intros _. destruct (Py.split_sep sep s) as [|g fs] eqn:E.
    + by apply split_sep_nonempty in E.
    + eauto.
  - intros Hs. destruct (IH Hs) as (f & g & fs & ->). eauto.
Qed.

(** [s.split(sep)[-1]] is the part of [s] after its last [sep]. *)
Lemma last_split_sep sep s :
  last (Py.split_sep sep s) = Some (after_last sep s).
Proof.
  induction s as [|c s IH]; simpl; [done|].
  destruct (has_char sep s) eqn:Hs.
  - destruct (split_sep_two _ _ Hs) as (f & g & fs & E).
    rewrite E in IH |- *. rewrite <- IH.
    by destruct (Ascii.eqb c sep).
  - rewrite (split_sep_no_sep _ _ Hs). by destruct (Ascii.eqb c sep).
Qed.

Lemma last_item_split_sep sep s :
  last_item (Py.split_sep sep s) = ret (after_last sep s).
Proof. unfold last_item. by rewrite last_split_sep. Qed.

(** The result of [split_sep] glued back with [sep] is the string. *)
Lemma after_last_no_sep sep s : has_char sep (after_last sep s) = false.
Proof.
  induction s as [|c s IH]; simpl; [done|].
  destruct (has_char sep s) eqn:Hs; [done|].
  destruct (Ascii.eqb c sep) eqn:Hc; [done|]. simpl. by rewrite Hc, Hs.
Qed.

(** [s.split()] yields non-empty fields without whitespace. *)
Lemma split_fields s f : f ∈ Py.split s → f ≠ "" ∧ has_space f = false.
Proof.
  revert f. induction s as [|c s IH]; intros f; simpl.
  - by intros ?%elem_of_nil.
  - destruct (Py.isspace c) eqn:Hc; [apply IH|].
    destruct s as [|c' s'].
    + intros ->%list_elem_of_singleton. simpl. by rewrite Hc.
    + destruct (Py.isspace c') eqn:Hc'.
      * intros [->|Hf]%elem_of_cons; [|by apply IH].
        simpl. by rewrite Hc.
      * destruct (Py.split (String c' s')) as [|g gs] eqn:E.
        { intros ->%list_elem_of_singleton. simpl. by rewrite Hc. }
        intros [->|Hf]%elem_of_cons.
        -- split; [done|]. simpl. rewrite Hc. simpl.
           apply IH. by left.
        -- apply IH. by right.
Qed.

(** A non-empty string without whitespace is its own single field. *)
Lemma split_one_field s : s ≠ "" → has_space s = false → Py.split s = [s].
Proof.
  induction s as [|c s IH]; [done|]. intros _. simpl.
  intros [Hc Hs]%orb_false_elim. rewrite Hc.
  destruct s as [|c' s']; [done|].
  simpl in Hs. apply orb_false_elim in Hs as [Hc' Hs']. rewrite Hc'.
  rewrite IH; [done|done|]. simpl. by rewrite Hc', Hs'.
Qed.

Lemma substring_0_all s : substring 0 (String.length s) s = s.
Proof. induction s as [|c s IH]; [done|]. simpl. by rewrite IH. Qed.

Lemma substring_0_app pre suf :
  substring 0 (String.length pre) (pre +:+ suf) = pre.
Proof.
  induction pre as [|c pre IH]; [by destruct suf|].
  rewrite string_app_cons. simpl. by rewrite IH.
Qed.

Lemma substring_app_suffix pre suf :
  substring (String.length pre) (String.length suf) (pre +:+ suf) = suf.
Proof.
  induction pre as [|c pre IH]; [apply substring_0_all|].
  rewrite string_app_cons. simpl. apply IH.
Qed.

(** [endswith] on a string given with a suffix of the tested length. *)
Lemma endswith_app pre suf suffix :
  String.length suffix = String.length suf →
  Py.endswith (pre +:+ suf) suffix = String.eqb suf suffix.
Proof.
  intros Hlen. unfold Py.endswith.
  rewrite string_app_length, Hlen, Nat.add_sub, substring_app_suffix.
  replace (String.length suf <=? String.length pre + String.length suf)%nat
    with true by (symmetry; apply Nat.leb_le; lia).
  done.
Qed.

Lemma drop_last_app pre suf :
  Py.drop_last (String.length suf) (pre +:+ suf) = pre.
Proof.
  unfold Py.drop_last.
  by rewrite string_app_length, Nat.add_sub, substring_0_app.
Qed.

(** The paired branch strips [/1] and [/2]. *)
Lemma strip_paired_mate pre :
  strip_paired (pre +:+ "/1") = pre ∧ strip_paired (pre +:+ "/2") = pre.
Proof.
  unfold strip_paired.
  rewrite !(endswith_app pre) by done. cbn [String.eqb Ascii.eqb Bool.eqb orb].
  split; apply (drop_last_app pre).
Qed.

(** The single-end branch leaves them in place. *)
Lemma strip_single_mate pre :
  strip_single (pre +:+ "/1") = pre +:+ "/1"
  ∧ strip_single (pre +:+ "/2") = pre +:+ "/2".
Proof.
  unfold strip_single.
  change (pre +:+ "/1") with (pre +:+ "/" +:+ "1").
  change (pre +:+ "/2") with (pre +:+ "/" +:+ "2").
  rewrite <- !string_app_assoc.
  rewrite !(endswith_app (pre +:+ "/")) by done. by vm_compute.
Qed.

(** ** The hit index *)

Lemma add_hit_lookup d r t :
  add_hit d r t !! r = Some (add_target (default [] (d !! r)) t).
Proof.
  unfold add_hit, add_target.
  destruct (d !! r) as [ts|] eqn:E; simpl.
  - case_decide; [done|]. by rewrite lookup_insert_eq.
  - by rewrite lookup_insert_eq.
Qed.

Lemma add_hit_lookup_ne d r t r' : r ≠ r' → add_hit d r t !! r' = d !! r'.
Proof.
  intros Hne. unfold add_hit.
  destruct (d !! r) as [ts|]; [case_decide|]; by rewrite ?lookup_insert_ne.
Qed.

Lemma dedup_first_filter (P : string → Prop) `{!∀ x, Decision (P x)} l :
  dedup_first (filter P l) = filter P (dedup_first l).
Proof.
  induction l as [|x l IH]; [done|]. simpl.
  rewrite filter_cons. case_decide as HP.
  - simpl. rewrite filter_cons, decide_True by done. f_equal.
    rewrite IH, !list_filter_filter. apply list_filter_iff.
    intros y. split; intros [? ?]; by split.
  - rewrite filter_cons, decide_False by done. rewrite IH.
    rewrite list_filter_filter. apply list_filter_iff.
    intros y. split; [|intros Hy; apply Hy].
    intros Hy. split; [done|]. by intros ->.
Qed.

Lemma add_targets_dedup acc l :
  add_targets acc l = acc ++ dedup_first (filter (λ y, y ∉ acc) l).
Proof.
  revert acc. induction l as [|x l IH]; intros acc; simpl.
  - by rewrite app_nil_r.
  - unfold add_targets in *. simpl. rewrite IH. unfold add_target.
    rewrite filter_cons. destruct (decide (x ∈ acc)) as [Hin|Hnin].
    + by rewrite decide_False by tauto.
    + rewrite decide_True by done. simpl. rewrite <- app_assoc. simpl.
      do 2 f_equal. rewrite <- dedup_first_filter, list_filter_filter.
      f_equal. apply list_filter_iff. intros y.
      rewrite not_elem_of_app, list_elem_of_singleton.
      split; intros [? ?]; by split.
Qed.

Lemma add_targets_nil l : add_targets [] l = dedup_first l.
Proof.
  rewrite add_targets_dedup. simpl. f_equal.
  induction l as [|x l IH]; [done|].
  rewrite filter_cons_True by apply not_elem_of_nil. by f_equal.
Qed.

Lemma dedup_first_elem_of l t : t ∈ dedup_first l ↔ t ∈ l.
Proof.
  induction l as [|x l IH]; [done|]. simpl.
  rewrite !elem_of_cons, list_elem_of_filter, IH.
  destruct (decide (t = x)) as [->|Hne]; [by split; left|].
  split.
  - intros [?|[_ ?]]; [by left | by right].
  - intros [?|?]; [done | by right].
Qed.

Lemma dedup_first_NoDup l : NoDup (dedup_first l).
Proof.
  induction l as [|x l IH]; simpl; constructor.
  - rewrite list_elem_of_filter. by intros [? _].
  - by apply NoDup_filter.
Qed.

Lemma dedup_first_sublist l : dedup_first l `sublist_of` l.
Proof.
  induction l as [|x l IH]; simpl; [done|].
  apply sublist_skip. etrans; [apply sublist_filter|done].
Qed.

Lemma hit_is_Some line :
  (3 ≤ length (Py.split line))%nat → is_Some (hit line).
Proof.
  unfold hit. destruct (Py.split line) as [|f0 [|f1 [|f2 fs]]]; simpl; try lia.
  eauto.
Qed.

Lemma item_lookup {A} (l : list A) i x : l !! i = Some x → item l i = ret x.
Proof. unfold item. by intros ->. Qed.

Lemma item_None {A} (l : list A) i : l !! i = None → item l i = raise IndexError.
Proof. unfold item. by intros ->. Qed.

Lemma read_sorting_line_hit d line r t :
  hit line = Some (r, t) → read_sorting_line d line = ret (add_hit d r t).
Proof.
  unfold hit, read_sorting_line.
  destruct (Py.split line) as [|f0 [|f1 [|f2 fs]]]; try done.
  intros [= <- <-]. cbv zeta.
  rewrite (item_lookup _ 0 f0), (item_lookup _ 2 f2) by done.
  rewrite !bind_ret_l, last_item_split_sep, bind_ret_l.
  unfold add_hit. destruct (d !! f0); [case_decide|]; done.
Qed.

Lemma extend_cons o t new :
  extend (Some (add_target (default [] o) t)) new = extend o (t :: new).
Proof. by destruct new. Qed.

Lemma read_sorting_loop_spec lines : ∀ d,
  Forall (λ line, (3 ≤ length (Py.split line))%nat) lines →
  ∃ d', read_sorting_loop d lines = ret d'
        ∧ ∀ r, d' !! r = extend (d !! r) (targets_of r lines).
Proof.
  induction lines as [|line lines IH]; intros d Hwf.
  - by exists d.
  - apply Forall_cons in Hwf as [Hline Hwf].
    destruct (hit_is_Some _ Hline) as [[r0 t0] Hhit].
    destruct (IH (add_hit d r0 t0) Hwf) as (d' & Hrun & Hlook).
    exists d'. split.
    + simpl. by rewrite (read_sorting_line_hit _ _ _ _ Hhit), bind_ret_l.
    + intros r. rewrite Hlook. unfold targets_of. simpl. rewrite Hhit. simpl.
      case_decide as Hr.
      * subst r0. rewrite add_hit_lookup. apply extend_cons.
      * by rewrite add_hit_lookup_ne.
Qed.

(** C1. For alignment lines that all have at least three fields,
    [read_sorting] returns a dict that maps every read identifier (field 0,
    verbatim) to the targets listed for it (the part of field 2 after its
    last hyphen), each target once, in the order of first appearance; a read
    that no line names is not a key. *)
Theorem read_sorting_dedup (lines : list string) :
  Forall (λ line, (3 ≤ length (Py.split line))%nat) lines →
  ∃ d, read_sorting lines = ([], inr d)
       ∧ ∀ r,
           d !! r = match targets_of r lines with
                    | [] => None
                    | ts => Some (dedup_first ts)
                    end
           ∧ ∀ ts, d !! r = Some ts →
                   NoDup ts
                   ∧ (∀ t, t ∈ ts ↔ t ∈ targets_of r lines)
                   ∧ ts `sublist_of` targets_of r lines.
Proof.
  intros Hwf.
  destruct (read_sorting_loop_spec lines ∅ Hwf) as (d & Hrun & Hlook).
  exists d. split; [done|]. intros r.
  assert (Hr : d !! r = match targets_of r lines with
                        | [] => None
                        | ts => Some (dedup_first ts)
                        end).
  { rewrite Hlook, lookup_empty. unfold extend.
    destruct (targets_of r lines); [done|]. simpl default.
    by rewrite add_targets_nil. }
  split; [done|]. intros ts. rewrite Hr.
  destruct (targets_of r lines) as [|t0 tl] eqn:E; [done|].
  intros Hts. assert (ts = dedup_first (t0 :: tl)) as -> by congruence.
  split; [apply dedup_first_NoDup|].
  split; [intros t; apply dedup_first_elem_of | apply dedup_first_sublist].
Qed.

(** The scenario of C1: the repeated pair is recorded once. *)
Lemma read_sorting_dedup_example :
  Forall (λ line, (3 ≤ length (Py.split line))%nat) example_hits
  ∧ read_sorting example_hits = ([], inr {[ "readA" := ["5968"; "6128"] ]}).
Proof.
  assert (Hwf : Forall (λ line, (3 ≤ length (Py.split line))%nat) example_hits).
  { repeat constructor. }
  split; [exact Hwf|].
  destruct (read_sorting_dedup example_hits Hwf) as (d & Hrun & Hspec).
  rewrite Hrun. do 2 f_equal. apply map_eq. intros r.
  destruct (Hspec r) as [-> _].
  destruct (decide (r = "readA")) as [->|Hne].
  - reflexivity.
  - rewrite lookup_singleton_ne by done.
    unfold targets_of, example_hits. simpl.
    rewrite !decide_False by done. reflexivity.
Defined.

Lemma read_sorting_line_short d line :
  (length (Py.split line) < 3)%nat →
  read_sorting_line d line = raise IndexError.
Proof.
  unfold read_sorting_line. cbv zeta.
  destruct (Py.split line) as [|f0 [|f1 [|f2 fs]]]; simpl length; try lia;
    intros _.
  - by rewrite (item_None _ 0).
  - rewrite (item_lookup _ 0 f0), bind_ret_l by done. by rewrite (item_None _ 2).
  - rewrite (item_lookup _ 0 f0), bind_ret_l by done. by rewrite (item_None _ 2).
Qed.

Lemma read_sorting_loop_short lines : ∀ d,
  Exists (λ line, (length (Py.split line) < 3)%nat) lines →
  read_sorting_loop d lines = raise IndexError.
Proof.
  induction lines as [|line lines IH]; intros d Hex.
  - by apply Exists_nil in Hex.
  - simpl. destruct (decide (length (Py.split line) < 3)%nat) as [Hs|Hl].
    + by rewrite read_sorting_line_short.
    + apply Exists_cons in Hex as [?|Hex]; [done|].
      destruct (hit_is_Some line) as [[r t] Hhit]; [lia|].
      rewrite (read_sorting_line_hit _ _ _ _ Hhit), bind_ret_l. by apply IH.
Qed.

(** C9. When some alignment line has fewer than three whitespace-delimited
    fields, [read_sorting] ends with [IndexError] and returns no dict. *)
Theorem read_sorting_short_line (lines : list string) :
  Exists (λ line, (length (Py.split line) < 3)%nat) lines →
  read_sorting lines = ([], inl IndexError)
  ∧ ∀ d, outcome (read_sorting lines) ≠ inr d.
Proof.
  intros Hex. unfold read_sorting.
  rewrite (read_sorting_loop_short _ _ Hex). by split.
Qed.

(** An empty line after a well-formed one: the run fails on it. *)
Lemma read_sorting_short_line_example :
  Exists (λ line, (length (Py.split line) < 3)%nat) ["readA 0 target-5968"; ""]
  ∧ read_sorting ["readA 0 target-5968"; ""] = ([], inl IndexError)
  ∧ ∀ d, outcome (read_sorting ["readA 0 target-5968"; ""]) ≠ inr d.
Proof.
  assert (Hex : Exists (λ line, (length (Py.split line) < 3)%nat)
                  ["readA 0 target-5968"; ""]).
  { apply Exists_cons_tl, Exists_cons_hd. simpl. lia. }
  split; [exact Hex|]. exact (read_sorting_short_line _ Hex).
Defined.

(** ** The writes *)

Lemma write_paired_seqs_events target ID1 Seq1 Qual1 ID2 Seq2 Qual2 merged :
  write_paired_seqs target ID1 Seq1 Qual1 ID2 Seq2 Qual2 true merged
  = (paired_events target ID1 Seq1 Qual1 ID2 Seq2 Qual2 merged, inr tt).
Proof. by destruct merged. Qed.

Lemma write_single_seqs_events target ID1 Seq1 :
  write_single_seqs target ID1 Seq1 = (single_events target ID1 Seq1, inr tt).
Proof. done. Qed.

Lemma for_each_events {A} (ev : A → list event) (body : A → M unit) l :
  (∀ x, body x = (ev x, inr tt)) →
  for_each l body = (flat_map ev l, inr tt).
Proof.
  intros Hbody. induction l as [|x l IH]; [done|].
  simpl. by rewrite Hbody, IH, bind_ok.
Qed.

Lemma for_each_events_Forall {A} (ev : A → list event) (body : A → M unit) l :
  Forall (λ x, body x = (ev x, inr tt)) l →
  for_each l body = (flat_map ev l, inr tt).
Proof.
  induction 1 as [|x l Hx _ IH]; [done|].
  cbn [for_each flat_map]. by rewrite Hx, IH, bind_ok.
Qed.

(** ** Single-end mode *)

Lemma first_field_item title :
  Py.split title ≠ [] → item (Py.split title) 0 = ret (first_field title).
Proof.
  unfold first_field. destruct (Py.split title) as [|f fs]; [done|].
  intros _. by apply item_lookup.
Qed.

Lemma no_field_item title :
  Py.split title = [] → item (Py.split title) 0 = raise IndexError.
Proof. intros ->. done. Qed.

Lemma single_body_events d rec :
  has_field rec → single_body d rec = (read_events d rec, inr tt).
Proof.
  destruct rec as [[title seq] qual]. unfold has_field, single_body, read_events.
  cbn [fst snd]. intros Hf. rewrite (first_field_item _ Hf), bind_ret_l.
  cbv zeta. destruct (d !! strip_single (first_field title)) as [ts|]; [|done].
  apply for_each_events. intros t. apply write_single_seqs_events.
Qed.

Lemma single_body_no_field d rec :
  ¬ has_field rec → single_body d rec = raise IndexError.
Proof.
  destruct rec as [[title seq] qual]. unfold has_field, single_body.
  cbn [fst snd]. intros Hf. apply dec_stable in Hf.
  by rewrite (no_field_item _ Hf).
Qed.

Lemma distribute_reads_single source d single merged :
  distribute_reads [source] d single merged = for_each source (single_body d).
Proof.
  unfold distribute_reads.
  by rewrite (item_lookup _ 0 source), bind_ret_l by done.
Qed.

Lemma distribute_reads_paired source1 source2 d single merged :
  distribute_reads [source1; source2] d single merged
  = paired_loop d merged source1 (Some source2).
Proof.
  unfold distribute_reads.
  by rewrite (item_lookup _ 0 source1), bind_ret_l by done.
Qed.

(** The single-end run in terms of the identifier that the code computes
    ([strip_single]): over records whose titles have a field, the run issues
    for each record, in order, one append of the record to the unpaired
    FASTA file of every target listed for that identifier, and nothing
    else; a record whose identifier is not a key issues nothing. *)
Theorem single_end_distribution (d : gmap string (list string))
    (source : list record) (single merged : bool) :
  Forall has_field source →
  distribute_reads [source] d single merged
  = (flat_map (read_events d) source, inr tt)
  ∧ (∀ title seq qual ts,
       d !! strip_single (first_field title) = Some ts →
       read_events d (title, seq, qual)
       = flat_map (λ t, [Makedirs t;
                         Open (unpaired_path t) ModeAppend;
                         Write (unpaired_path t)
                           (">" +:+ strip_single (first_field title) +:+ Py.nl
                            +:+ seq +:+ Py.nl);
                         Close (unpaired_path t)]) ts)
  ∧ (∀ title seq qual,
       d !! strip_single (first_field title) = None →
       read_events d (title, seq, qual) = [])
  ∧ (∀ e, e ∈ log (distribute_reads [source] d single merged) →
       ∃ title seq qual ts t,
         (title, seq, qual) ∈ source
         ∧ d !! strip_single (first_field title) = Some ts
         ∧ t ∈ ts
         ∧ e ∈ single_events t (strip_single (first_field title)) seq).
Proof.
  intros Hwf.
  assert (Hrun : distribute_reads [source] d single merged
                 = (flat_map (read_events d) source, inr tt)).
  { rewrite distribute_reads_single. apply for_each_events_Forall.
    eapply Forall_impl; [exact Hwf|]. intros rec. apply single_body_events. }
  split; [exact Hrun|]. split; [|split].
  - intros title seq qual ts Hts. unfold read_events. cbn [fst snd].
    by rewrite Hts.
  - intros title seq qual Hts. unfold read_events. cbn [fst snd].
    by rewrite Hts.
  - rewrite Hrun. unfold log. cbn [fst]. intros e He.
    apply list_elem_of_In, in_flat_map in He as ([[title seq] qual] & Hrec & He).
    unfold read_events in He. cbn [fst snd] in He.
    destruct (d !! strip_single (first_field title)) as [ts|] eqn:Hts;
      [|by destruct He].
    apply in_flat_map in He as (t & Ht & He).
    exists title, seq, qual, ts, t.
    by rewrite <- !list_elem_of_In in *.
Qed.

Lemma single_end_distribution_example :
  Forall has_field example_reads
  ∧ distribute_reads [example_reads] example_index true false
    = ([Makedirs "5968"; Open "5968/5968_unpaired.fasta" ModeAppend;
        Write "5968/5968_unpaired.fasta" (">readA" +:+ Py.nl +:+ "AAAA" +:+ Py.nl);
        Close "5968/5968_unpaired.fasta";
        Makedirs "5968"; Open "5968/5968_unpaired.fasta" ModeAppend;
        Write "5968/5968_unpaired.fasta" (">readC" +:+ Py.nl +:+ "GGGG" +:+ Py.nl);
        Close "5968/5968_unpaired.fasta";
        Makedirs "6128"; Open "6128/6128_unpaired.fasta" ModeAppend;
        Write "6128/6128_unpaired.fasta" (">readC" +:+ Py.nl +:+ "GGGG" +:+ Py.nl);
        Close "6128/6128_unpaired.fasta"], inr tt).
Proof.
  assert (Hwf : Forall has_field example_reads).
  { repeat apply Forall_cons_2; try apply Forall_nil_2; by vm_compute. }
  split; [exact Hwf|].
  rewrite (proj1 (single_end_distribution example_index example_reads
                    true false Hwf)).
  reflexivity.
Defined.

(** C6. With the read identifier of the specification (the first field of
    the title without a trailing [/1] or [/2]) the single-end run does not
    write every read whose identifier is a key, and writes reads whose
    identifier is no key.  The record [readX/1] has the identifier [readX],
    a key with target [7], yet the run writes nothing; the record whose
    title is [readX] followed by the character of code point 1 has an
    identifier that is no key, yet the run writes it, as [read], to the
    target of the key [read].  The suffix test of lines 89-90 is the cause,
    as in C5. *)
Theorem single_end_distribution_by_read_id :
  spec_read_id "readX/1" = "readX"
  ∧ ({[ "readX" := ["7"] ]} : gmap string (list string))
      !! spec_read_id "readX/1" = Some ["7"]
  ∧ distribute_reads [[("readX/1", "ACGT", "IIII")]] {[ "readX" := ["7"] ]}
      true false = ([], inr tt)
  ∧ spec_read_id ("readX" +:+ esc1) = "readX" +:+ esc1
  ∧ ({[ "read" := ["7"] ]} : gmap string (list string))
      !! spec_read_id ("readX" +:+ esc1) = None
  ∧ distribute_reads [[("readX" +:+ esc1, "ACGT", "IIII")]]
      {[ "read" := ["7"] ]} true false
    = ([Makedirs "7"; Open "7/7_unpaired.fasta" ModeAppend;
        Write "7/7_unpaired.fasta" (">read" +:+ Py.nl +:+ "ACGT" +:+ Py.nl);
        Close "7/7_unpaired.fasta"], inr tt).
Proof. repeat split; by vm_compute. Qed.

(** C5. The single-end branch tests for the one-character suffixes of code
    points 1 and 2, not for [/1] and [/2]: an identifier that ends in [/1] or
    [/2] keeps its mate suffix there, whereas the paired branch strips it.
    So the record [readX/1] is looked up under [readX/1]: with [readX] as the
    only key nothing is written, although the record [readX] is written. *)
Theorem single_end_mate_suffix_kept :
  (∀ pre, strip_single (pre +:+ "/1") = pre +:+ "/1"
          ∧ strip_single (pre +:+ "/2") = pre +:+ "/2")
  ∧ (∀ pre, strip_paired (pre +:+ "/1") = pre
            ∧ strip_paired (pre +:+ "/2") = pre)
  ∧ distribute_reads [[("readX/1", "ACGT", "IIII")]] {[ "readX" := ["7"] ]}
      true false = ([], inr tt)
  ∧ distribute_reads [[("readX", "ACGT", "IIII")]] {[ "readX" := ["7"] ]}
      true false = (single_events "7" "readX" "ACGT", inr tt).
Proof.
  split; [apply strip_single_mate|]. split; [apply strip_paired_mate|].
  by vm_compute.
Qed.

(** ** Paired-end mode *)

Lemma paired_body_events d merged rec1 rec2 :
  has_field rec1 → has_field rec2 →
  paired_body d merged rec1 rec2 = (pair_events d merged rec1 rec2, inr tt).
Proof.
  destruct rec1 as [[title1 seq1] qual1], rec2 as [[title2 seq2] qual2].
  unfold has_field, paired_body, pair_events, pair_targets. cbn [fst snd].
  intros Hf1 Hf2.
  rewrite (first_field_item _ Hf1), bind_ret_l. cbv zeta.
  rewrite (first_field_item _ Hf2), bind_ret_l.
  destruct (d !! strip_paired (first_field title1)) as [ts|].
  - apply for_each_events. intros t. apply write_paired_seqs_events.
  - destruct (d !! strip_paired (first_field title2)) as [ts|]; [|done].
    apply for_each_events. intros t. apply write_paired_seqs_events.
Qed.

Lemma paired_body_no_field d merged rec1 rec2 :
  ¬ (has_field rec1 ∧ has_field rec2) →
  paired_body d merged rec1 rec2 = raise IndexError.
Proof.
  destruct rec1 as [[title1 seq1] qual1], rec2 as [[title2 seq2] qual2].
  unfold has_field, paired_body. cbn [fst snd]. intros Hno.
  destruct (decide (Py.split title1 = [])) as [E1|Hf1].
  - by rewrite (no_field_item _ E1).
  - rewrite (first_field_item _ Hf1), bind_ret_l. cbv zeta.
    destruct (decide (Py.split title2 = [])) as [E2|Hf2].
    + by rewrite (no_field_item _ E2).
    + by destruct Hno.
Qed.

Lemma paired_loop_cons d merged rec1 rec2 it1 it2 :
  paired_loop d merged (rec1 :: it1) (Some (rec2 :: it2))
  = (paired_body d merged rec1 rec2;; paired_loop d merged it1 (Some it2)).
Proof. cbn [paired_loop next]. by rewrite bind_ret_l. Qed.

Lemma paired_loop_zip d merged s1 : ∀ s2,
  paired_loop d merged s1 (Some s2)
  = (for_each (zip s1 s2) (pair_step d merged);;
     loop_end (length s1) (length s2)).
Proof.
  induction s1 as [|r1 s1 IH]; intros s2.
  - symmetry. apply (bind_ret_l tt).
  - destruct s2 as [|r2 s2].
    + symmetry. apply (bind_ret_l tt).
    + rewrite paired_loop_cons, IH. cbn [zip_with for_each length].
      rewrite bind_assoc. unfold pair_step at 2. cbn [fst snd].
      f_equal. unfold loop_end.
      destruct (decide (length s1 ≤ length s2)%nat);
        [rewrite decide_True by lia | rewrite decide_False by lia]; done.
Qed.

(** After [n] iterations the loop goes on with both iterators advanced by
    exactly [n] records. *)
Lemma paired_loop_split d merged n : ∀ s1 s2,
  (n ≤ length s1)%nat → (n ≤ length s2)%nat →
  paired_loop d merged s1 (Some s2)
  = (for_each (zip (take n s1) (take n s2)) (pair_step d merged);;
     paired_loop d merged (drop n s1) (Some (drop n s2))).
Proof.
  induction n as [|n IH]; intros s1 s2 H1 H2.
  - symmetry. apply (bind_ret_l tt).
  - destruct s1 as [|r1 s1]; [simpl in H1; lia|].
    destruct s2 as [|r2 s2]; [simpl in H2; lia|].
    simpl in H1, H2.
    rewrite paired_loop_cons, (IH s1 s2) by lia.
    cbn [take drop zip_with for_each]. by rewrite bind_assoc.
Qed.

Lemma for_each_pair_events d merged (ps : list (record * record)) :
  Forall (λ p, has_field p.1 ∧ has_field p.2) ps →
  for_each ps (pair_step d merged)
  = (flat_map (λ p, pair_events d merged p.1 p.2) ps, inr tt).
Proof.
  intros Hwf. apply for_each_events_Forall.
  eapply Forall_impl; [exact Hwf|]. intros p [? ?].
  by apply paired_body_events.
Qed.

Lemma Forall_zip_has_field (s1 s2 : list record) :
  Forall has_field s1 → Forall has_field s2 →
  Forall (λ p, has_field p.1 ∧ has_field p.2) (zip s1 s2).
Proof.
  intros H1. revert s2. induction H1 as [|r1 s1 Hr1 _ IH]; intros s2 H2.
  - constructor.
  - destruct H2 as [|r2 s2 Hr2 H2]; [constructor|].
    constructor; [done|]. by apply IH.
Qed.

Lemma Makedirs_paired_events t t' ID1 Seq1 Qual1 ID2 Seq2 Qual2 merged :
  Makedirs t ∈ paired_events t' ID1 Seq1 Qual1 ID2 Seq2 Qual2 merged ↔ t = t'.
Proof.
  unfold paired_events. cbv zeta. rewrite elem_of_cons, elem_of_app.
  split.
  - intros [[= ->]|[H|H]]; [done| |].
    + destruct merged; [|by apply elem_of_nil in H].
      rewrite !elem_of_cons in H. destruct H as [?|[?|[?|[?|H]]]]; try done.
      by apply elem_of_nil in H.
    + rewrite !elem_of_cons in H. destruct H as [?|[?|[?|[?|H]]]]; try done.
      by apply elem_of_nil in H.
  - intros ->. by left.
Qed.

Lemma Makedirs_flat_map_paired_events t ts ID1 Seq1 Qual1 ID2 Seq2 Qual2 merged :
  Makedirs t
    ∈ flat_map (λ t', paired_events t' ID1 Seq1 Qual1 ID2 Seq2 Qual2 merged) ts
  ↔ t ∈ ts.
Proof.
  rewrite list_elem_of_In, in_flat_map. split.
  - intros (t' & Ht' & Hin). apply list_elem_of_In in Hin, Ht'.
    by apply Makedirs_paired_events in Hin as ->.
  - intros Ht. exists t. split; [by apply list_elem_of_In|].
    apply list_elem_of_In. by apply Makedirs_paired_events.
Qed.

(** C2. For a pair of records whose titles have a field, with [ID1] and
    [ID2] the identifiers after the suffix test: when [ID1] is a key the pair
    is written once to each of [ID1]'s targets and to no other target,
    whatever [ID2] maps to; [ID2]'s targets are used only when [ID1] is not a
    key; when neither is a key nothing is written. *)
Theorem paired_first_match_wins (d : gmap string (list string))
    (merged single : bool) (title1 seq1 qual1 title2 seq2 qual2 : string) :
  has_field (title1, seq1, qual1) → has_field (title2, seq2, qual2) →
  let ID1 := strip_paired (first_field title1) in
  let ID2 := strip_paired (first_field title2) in
  let run := distribute_reads [[(title1, seq1, qual1)]; [(title2, seq2, qual2)]]
               d single merged in
  let writes := flat_map (λ t, paired_events t ID1 seq1 qual1 ID2 seq2 qual2
                                 merged) in
  run = paired_body d merged (title1, seq1, qual1) (title2, seq2, qual2)
  ∧ (∀ ts1, d !! ID1 = Some ts1 →
       run = (writes ts1, inr tt) ∧ ∀ t, Makedirs t ∈ log run ↔ t ∈ ts1)
  ∧ (∀ ts2, d !! ID1 = None → d !! ID2 = Some ts2 →
       run = (writes ts2, inr tt) ∧ ∀ t, Makedirs t ∈ log run ↔ t ∈ ts2)
  ∧ (d !! ID1 = None → d !! ID2 = None → run = ([], inr tt)).
Proof.
  intros Hf1 Hf2 ID1 ID2 run writes.
  assert (Hrun : run = paired_body d merged (title1, seq1, qual1)
                         (title2, seq2, qual2)).
  { unfold run. rewrite distribute_reads_paired, paired_loop_cons.
    cbn [paired_loop]. apply bind_ret_tt. }
  assert (Hev : run = (writes (pair_targets d ID1 ID2), inr tt)).
  { rewrite Hrun. by rewrite paired_body_events. }
  split; [exact Hrun|]. unfold pair_targets in Hev. split; [|split].
  - intros ts1 H1. rewrite H1 in Hev. split; [done|]. intros t.
    rewrite Hev. apply Makedirs_flat_map_paired_events.
  - intros ts2 H1 H2. rewrite H1, H2 in Hev. split; [done|]. intros t.
    rewrite Hev. apply Makedirs_flat_map_paired_events.
  - intros H1 H2. by rewrite H1, H2 in Hev.
Qed.

(** Both mates are keys with different targets: only those of mate 1 are
    written. *)
Lemma paired_first_match_wins_example :
  has_field ("readX/1", "ACGT", "IIII") ∧ has_field ("readY/2", "TTTT", "JJJJ")
  ∧ distribute_reads [[("readX/1", "ACGT", "IIII")]; [("readY/2", "TTTT", "JJJJ")]]
      (<["readY" := ["8"]]> {[ "readX" := ["7"] ]}) true false
    = ([Makedirs "7"; Open "7/7_interleaved.fasta" ModeAppend;
        Write "7/7_interleaved.fasta" (">readX" +:+ Py.nl +:+ "ACGT" +:+ Py.nl);
        Write "7/7_interleaved.fasta" (">readY" +:+ Py.nl +:+ "TTTT" +:+ Py.nl);
        Close "7/7_interleaved.fasta"], inr tt).
Proof.
  assert (H1 : has_field ("readX/1", "ACGT", "IIII")) by by vm_compute.
  assert (H2 : has_field ("readY/2", "TTTT", "JJJJ")) by by vm_compute.
  split; [exact H1|]. split; [exact H2|].
  destruct (paired_first_match_wins (<["readY" := ["8"]]> {[ "readX" := ["7"] ]})
              false true _ _ _ _ _ _ H1 H2) as (_ & Hkey & _).
  destruct (Hkey ["7"]) as [-> _]; reflexivity.
Defined.

(** C3. Over two sources of equal record count the paired run is the
    sequence of loop bodies on the records paired by position; after any
    [n] iterations exactly [n] records of each source are consumed; and when
    every title has a field, the requests of the run are, position by
    position, the writes of record [n] of source 1 together with record [n]
    of source 2. *)
Theorem paired_lock_step (d : gmap string (list string))
    (merged single : bool) (source1 source2 : list record) :
  length source1 = length source2 →
  distribute_reads [source1; source2] d single merged
  = for_each (zip source1 source2) (pair_step d merged)
  ∧ (∀ n, (n ≤ length source1)%nat →
       distribute_reads [source1; source2] d single merged
       = (for_each (zip (take n source1) (take n source2)) (pair_step d merged);;
          paired_loop d merged (drop n source1) (Some (drop n source2))))
  ∧ (∀ n rec1 rec2,
       source1 !! n = Some rec1 → source2 !! n = Some rec2 →
       zip source1 source2 !! n = Some (rec1, rec2)
       ∧ pair_step d merged (rec1, rec2) = paired_body d merged rec1 rec2)
  ∧ (Forall has_field source1 → Forall has_field source2 →
       distribute_reads [source1; source2] d single merged
       = (flat_map (λ p, pair_events d merged p.1 p.2) (zip source1 source2),
          inr tt)).
Proof.
  intros Hlen. rewrite distribute_reads_paired.
  assert (Hzip : paired_loop d merged source1 (Some source2)
                 = for_each (zip source1 source2) (pair_step d merged)).
  { rewrite paired_loop_zip. unfold loop_end.
    rewrite decide_True by lia. apply bind_ret_tt. }
  split; [exact Hzip|]. split; [|split].
  - intros n Hn. apply paired_loop_split; lia.
  - intros n rec1 rec2 H1 H2. split; [|done].
    rewrite lookup_zip_with, H1. simpl. by rewrite H2.
  - intros H1 H2. rewrite Hzip. apply for_each_pair_events.
    by apply Forall_zip_has_field.
Qed.

Lemma paired_lock_step_example :
  length [("a/1", "AC", "II"); ("b/1", "GT", "II")]
  = length [("z/2", "TT", "JJ"); ("b/2", "CC", "JJ")]
  ∧ distribute_reads [[("a/1", "AC", "II"); ("b/1", "GT", "II")];
                      [("z/2", "TT", "JJ"); ("b/2", "CC", "JJ")]]
      {[ "b" := ["7"] ]} true false
    = ([Makedirs "7"; Open "7/7_interleaved.fasta" ModeAppend;
        Write "7/7_interleaved.fasta" (">b" +:+ Py.nl +:+ "GT" +:+ Py.nl);
        Write "7/7_interleaved.fasta" (">b" +:+ Py.nl +:+ "CC" +:+ Py.nl);
        Close "7/7_interleaved.fasta"], inr tt).
Proof.
  split; [reflexivity|].
  destruct (paired_lock_step {[ "b" := ["7"] ]} false true
              [("a/1", "AC", "II"); ("b/1", "GT", "II")]
              [("z/2", "TT", "JJ"); ("b/2", "CC", "JJ")] eq_refl)
    as (_ & _ & _ & Hev).
  etrans; [apply Hev|reflexivity];
    repeat apply Forall_cons_2; try apply Forall_nil_2; by vm_compute.
Defined.

(** C4, as the code has it.  With sources of different record counts the
    run processes the pairs of the common prefix; then it ends with
    [StopIteration] when source 2 is the shorter one, and ends normally,
    leaving the surplus of source 2 unread, when source 1 is the shorter
    one. *)
Theorem paired_uneven_sources (d : gmap string (list string))
    (merged single : bool) (source1 source2 : list record) :
  length source1 ≠ length source2 →
  distribute_reads [source1; source2] d single merged
  = (for_each (zip source1 source2) (pair_step d merged);;
     if decide (length source1 < length source2)%nat
     then ret tt else raise StopIteration)
  ∧ ((length source2 < length source1)%nat →
       ∃ e, outcome (distribute_reads [source1; source2] d single merged)
            = inl e)
  ∧ (Forall has_field source1 → Forall has_field source2 →
       distribute_reads [source1; source2] d single merged
       = (flat_map (λ p, pair_events d merged p.1 p.2) (zip source1 source2),
          if decide (length source1 < length source2)%nat
          then inr tt else inl StopIteration))
  ∧ ((length source1 < length source2)%nat →
       distribute_reads [source1; source2] d single merged
       = distribute_reads [source1; take (length source1) source2] d single
           merged).
Proof.
  intros Hlen. rewrite !distribute_reads_paired.
  assert (Hrun : paired_loop d merged source1 (Some source2)
                 = (for_each (zip source1 source2) (pair_step d merged);;
                    if decide (length source1 < length source2)%nat
                    then ret tt else raise StopIteration)).
  { rewrite paired_loop_zip. unfold loop_end.
    destruct (decide (length source1 ≤ length source2)%nat);
      [rewrite decide_True by lia | rewrite decide_False by lia]; done. }
  split; [exact Hrun|]. split; [|split].
  - intros Hlt. rewrite Hrun, decide_False by lia.
    destruct (for_each (zip source1 source2) (pair_step d merged))
      as [l [e|[]]]; [by exists e | by exists StopIteration].
  - intros H1 H2. rewrite Hrun.
    rewrite for_each_pair_events by by apply Forall_zip_has_field.
    rewrite bind_ok. by case_decide; rewrite app_nil_r.
  - intros Hlt. rewrite Hrun, decide_True by lia.
    rewrite paired_loop_zip. unfold loop_end.
    rewrite length_take, decide_True by lia.
    by rewrite zip_with_take_r.
Qed.

(** Source 2 is the shorter one: the first pair is written, then the run
    ends with [StopIteration]. *)
Lemma paired_uneven_sources_example :
  length [("readX/1", "ACGT", "IIII"); ("readY/1", "GGGG", "IIII")]
  ≠ length [("readX/2", "TTTT", "JJJJ")]
  ∧ distribute_reads [[("readX/1", "ACGT", "IIII"); ("readY/1", "GGGG", "IIII")];
                      [("readX/2", "TTTT", "JJJJ")]]
      {[ "readX" := ["7"] ]} true false
    = ([Makedirs "7"; Open "7/7_interleaved.fasta" ModeAppend;
        Write "7/7_interleaved.fasta" (">readX" +:+ Py.nl +:+ "ACGT" +:+ Py.nl);
        Write "7/7_interleaved.fasta" (">readX" +:+ Py.nl +:+ "TTTT" +:+ Py.nl);
        Close "7/7_interleaved.fasta"], inl StopIteration).
Proof.
  assert (Hlen : length [("readX/1", "ACGT", "IIII"); ("readY/1", "GGGG", "IIII")]
                 ≠ length [("readX/2", "TTTT", "JJJJ")]) by (simpl; lia).
  split; [exact Hlen|].
  destruct (paired_uneven_sources {[ "readX" := ["7"] ]} false true
              [("readX/1", "ACGT", "IIII"); ("readY/1", "GGGG", "IIII")]
              [("readX/2", "TTTT", "JJJJ")] Hlen)
    as (_ & _ & Hev & _).
  etrans; [apply Hev|reflexivity];
    repeat apply Forall_cons_2; try apply Forall_nil_2; by vm_compute.
Defined.

(** Source 1 is the shorter one: the run ends normally after its only pair
    and never reads the second record of source 2. *)
Lemma paired_uneven_sources_no_error :
  length [("readX/1", "ACGT", "IIII")]
  ≠ length [("readX/2", "TTTT", "JJJJ"); ("readY/2", "GGGG", "JJJJ")]
  ∧ distribute_reads [[("readX/1", "ACGT", "IIII")];
                      [("readX/2", "TTTT", "JJJJ"); ("readY/2", "GGGG", "JJJJ")]]
      {[ "readX" := ["7"] ]} true false
    = ([Makedirs "7"; Open "7/7_interleaved.fasta" ModeAppend;
        Write "7/7_interleaved.fasta" (">readX" +:+ Py.nl +:+ "ACGT" +:+ Py.nl);
        Write "7/7_interleaved.fasta" (">readX" +:+ Py.nl +:+ "TTTT" +:+ Py.nl);
        Close "7/7_interleaved.fasta"], inr tt)
  ∧ ¬ ∃ e, outcome
             (distribute_reads
                [[("readX/1", "ACGT", "IIII")];
                 [("readX/2", "TTTT", "JJJJ"); ("readY/2", "GGGG", "JJJJ")]]
                {[ "readX" := ["7"] ]} true false) = inl e.
Proof.
  split; [simpl; lia|]. split; [reflexivity|]. by intros [e He].
Qed.

(** ** More than two read files *)

(** C10, as the code has it.  With three or more read files nothing is ever
    written; the run ends with [UnboundLocalError] at the first record of the
    first file, and ends normally when the first file has no record. *)
Theorem three_or_more_readfiles (d : gmap string (list string))
    (single merged : bool) (readfiles : list (list record)) :
  (3 ≤ length readfiles)%nat →
  ∃ iterator1,
    readfiles !! 0%nat = Some iterator1
    ∧ distribute_reads readfiles d single merged
      = ([], if decide (iterator1 = []) then inr tt else inl UnboundLocalError).
Proof.
  intros Hlen. destruct readfiles as [|iterator1 rest]; [simpl in Hlen; lia|].
  exists iterator1. split; [done|]. unfold distribute_reads.
  rewrite (item_lookup _ 0 iterator1), bind_ret_l by done.
  simpl in Hlen. rewrite !decide_False by (simpl; lia).
  by destruct iterator1.
Qed.

Lemma three_or_more_readfiles_example :
  (3 ≤ length [[("readX/1", "ACGT", "IIII")]; [("readX/2", "TTTT", "JJJJ")];
               [("readX/3", "GGGG", "JJJJ")]])%nat
  ∧ distribute_reads [[("readX/1", "ACGT", "IIII")]; [("readX/2", "TTTT", "JJJJ")];
                      [("readX/3", "GGGG", "JJJJ")]]
      {[ "readX" := ["7"] ]} true false
    = ([], inl UnboundLocalError).
Proof.
  assert (Hlen : (3 ≤ length [[("readX/1", "ACGT", "IIII")];
                              [("readX/2", "TTTT", "JJJJ")];
                              [("readX/3", "GGGG", "JJJJ")]])%nat)
    by (simpl; lia).
  split; [exact Hlen|].
  destruct (three_or_more_readfiles {[ "readX" := ["7"] ]} true false _ Hlen)
    as (iterator1 & Hit & Hrun).
  injection Hit as <-. exact Hrun.
Defined.

(** Three read files of which the first holds no record: the run does not
    fail. *)
Lemma three_or_more_readfiles_no_error :
  (3 ≤ length [[]; [("readX/2", "TTTT", "JJJJ")];
               [("readX/3", "GGGG", "JJJJ")]])%nat
  ∧ distribute_reads [[]; [("readX/2", "TTTT", "JJJJ")];
                      [("readX/3", "GGGG", "JJJJ")]]
      {[ "readX" := ["7"] ]} true false
    = ([], inr tt).
Proof. split; [simpl; lia | reflexivity]. Qed.

(** ** Append-only output *)

Lemma untouched_appended l p : touched l p = false → appended l p = "".
Proof.
  induction l as [|e l IH]; [done|].
  destruct e as [q|q m|q text|q]; simpl; try done.
  - intros [_ ?]%orb_false_elim. by apply IH.
  - intros [Hq ?]%orb_false_elim. apply bool_decide_eq_false in Hq.
    rewrite decide_False by done. by apply IH.
Qed.

(** Under append-only requests a file keeps what it held and gains what the
    log writes to it. *)
Lemma files_apply_log l : ∀ st p,
  forallb append_only l = true →
  files (apply_log st l) !! p
  = if touched l p then Some (content st p +:+ appended l p)
    else files st !! p.
Proof.
  induction l as [|e l IH]; intros st p Hl; [done|].
  apply andb_prop in Hl as [He Hl].
  change (apply_log st (e :: l)) with (apply_log (apply_event st e) l).
  rewrite (IH _ _ Hl).
  destruct e as [q|q [|]|q text|q]; try done; cbn [touched appended].
  - destruct (decide (q = p)) as [->|Hne].
    + rewrite bool_decide_eq_true_2 by done. cbn [orb].
      unfold content at 1. cbn [apply_event files].
      rewrite lookup_insert_eq. cbn [default from_option]. unfold id.
      destruct (touched l p) eqn:Ht; [done|].
      by rewrite (untouched_appended _ _ Ht), string_app_nil_r.
    + rewrite bool_decide_eq_false_2 by done. cbn [orb].
      unfold content at 1. cbn [apply_event files].
      by rewrite lookup_insert_ne.
  - destruct (decide (q = p)) as [->|Hne].
    + rewrite bool_decide_eq_true_2 by done. cbn [orb].
      unfold content at 1. cbn [apply_event files].
      rewrite lookup_insert_eq. cbn [default from_option]. unfold id.
      destruct (touched l p) eqn:Ht.
      * by rewrite string_app_assoc.
      * by rewrite (untouched_appended _ _ Ht), !string_app_nil_r.
    + rewrite bool_decide_eq_false_2 by done. cbn [orb].
      unfold content at 1. cbn [apply_event files].
      by rewrite lookup_insert_ne.
Qed.

Lemma appends_only_bind {A B} (m : M A) (f : A → M B) :
  appends_only m → (∀ a, appends_only (f a)) → appends_only (m ≫= f).
Proof.
  unfold appends_only. destruct m as [l [e|a]]; [done|]. intros Hl Hf.
  rewrite bind_ok. cbn [log fst]. rewrite forallb_app. cbn [log fst] in Hl.
  rewrite Hl. apply Hf.
Qed.

Lemma appends_only_item {A} (l : list A) i : appends_only (item l i).
Proof. unfold item. by destruct (l !! i). Qed.

Lemma appends_only_next {A} (it : option (list A)) : appends_only (next it).
Proof. by destruct it as [[|x rest]|]. Qed.

Lemma appends_only_for_each {A} (l : list A) (body : A → M unit) :
  (∀ x, appends_only (body x)) → appends_only (for_each l body).
Proof.
  intros Hbody. induction l as [|x l IH]; [done|].
  cbn [for_each]. by apply appends_only_bind.
Qed.

Lemma appends_only_write_single_seqs target ID1 Seq1 :
  appends_only (write_single_seqs target ID1 Seq1).
Proof. done. Qed.

Lemma appends_only_write_paired_seqs target ID1 Seq1 Qual1 ID2 Seq2 Qual2 single merged :
  appends_only (write_paired_seqs target ID1 Seq1 Qual1 ID2 Seq2 Qual2 single merged).
Proof. by destruct single, merged. Qed.

Lemma appends_only_single_body d rec : appends_only (single_body d rec).
Proof.
  destruct rec as [[title seq] qual]. unfold single_body.
  apply appends_only_bind; [apply appends_only_item|]. intros ID1. cbv zeta.
  destruct (d !! strip_single ID1); [|done].
  apply appends_only_for_each. intros t. apply appends_only_write_single_seqs.
Qed.

Lemma appends_only_paired_body d merged rec1 rec2 :
  appends_only (paired_body d merged rec1 rec2).
Proof.
  destruct rec1 as [[title1 seq1] qual1], rec2 as [[title2 seq2] qual2].
  unfold paired_body.
  apply appends_only_bind; [apply appends_only_item|]. intros ID1. cbv zeta.
  apply appends_only_bind; [apply appends_only_item|]. intros ID2.
  destruct (d !! strip_paired ID1).
  - apply appends_only_for_each. intros t. apply appends_only_write_paired_seqs.
  - destruct (d !! strip_paired ID2); [|done].
    apply appends_only_for_each. intros t. apply appends_only_write_paired_seqs.
Qed.

Lemma appends_only_paired_loop d merged iterator1 : ∀ iterator2,
  appends_only (paired_loop d merged iterator1 iterator2).
Proof.
  induction iterator1 as [|rec1 iterator1 IH]; intros iterator2; [done|].
  cbn [paired_loop]. apply appends_only_bind; [apply appends_only_next|].
  intros [rec2 iterator2']. apply appends_only_bind; [apply appends_only_paired_body|].
  intros _. apply IH.
Qed.

Lemma appends_only_distribute_reads readfiles d single merged :
  appends_only (distribute_reads readfiles d single merged).
Proof.
  unfold distribute_reads. apply appends_only_bind; [apply appends_only_item|].
  intros iterator1. case_decide.
  - apply appends_only_for_each. intros rec. apply appends_only_single_body.
  - apply appends_only_paired_loop.
Qed.

Lemma touched_of_appended l p : appended l p ≠ "" → touched l p = true.
Proof.
  intros Hne. destruct (touched l p) eqn:Ht; [done|].
  by apply untouched_appended in Ht.
Qed.

(** C8. Every file that a run opens is opened for appending.  Hence a run
    leaves in each file what it held before, followed by what the run writes
    to it; a second run with the same inputs appends the same text again, so
    that over a cleared directory each output file ends up holding its
    records twice, and the second run changes every file that the run writes
    to. *)
Theorem rerun_duplicates (readfiles : list (list record))
    (d : gmap string (list string)) (single merged : bool) (st : fs) :
  let run := distribute_reads readfiles d single merged in
  (∀ p m, Open p m ∈ log run → m = ModeAppend)
  ∧ (∀ p, files (run_on st run) !! p
          = if touched (log run) p
            then Some (content st p +:+ appended (log run) p)
            else files st !! p)
  ∧ (∀ p, files (run_on (run_on st run) run) !! p
          = if touched (log run) p
            then Some (content st p +:+ appended (log run) p
                       +:+ appended (log run) p)
            else files st !! p)
  ∧ (∀ p, files st !! p = None →
          files (run_on (run_on st run) run) !! p
          = (λ c, c +:+ c) <$> files (run_on st run) !! p)
  ∧ (∀ p, appended (log run) p ≠ "" →
          files (run_on (run_on st run) run) !! p
          ≠ files (run_on st run) !! p).
Proof.
  intros run.
  assert (Hq : forallb append_only (log run) = true)
    by apply appends_only_distribute_reads.
  assert (H1 : ∀ st' p, files (run_on st' run) !! p
                 = if touched (log run) p
                   then Some (content st' p +:+ appended (log run) p)
                   else files st' !! p).
  { intros st' p. unfold run_on. by apply files_apply_log. }
  assert (H2 : ∀ p, files (run_on (run_on st run) run) !! p
                 = if touched (log run) p
                   then Some (content st p +:+ appended (log run) p
                              +:+ appended (log run) p)
                   else files st !! p).
  { intros p. rewrite H1. unfold content at 1. rewrite H1.
    destruct (touched (log run) p); [|done].
    cbn [default from_option]. unfold id. by rewrite string_app_assoc. }
  split; [|split; [|split; [|split]]].
  - intros p [|] Hin; [done|].
    rewrite forallb_forall in Hq. apply list_elem_of_In in Hin.
    by apply Hq in Hin.
  - apply H1.
  - apply H2.
  - intros p Hp. rewrite H2, H1. unfold content. rewrite Hp.
    by destruct (touched (log run) p).
  - intros p Hne. rewrite H2, H1, (touched_of_appended _ _ Hne).
    intros [= Heq]. rewrite <- string_app_assoc in Heq.
    by apply string_app_id_r in Heq.
Qed.

(** Two runs over an empty directory: the record is there twice. *)
Lemma rerun_duplicates_example :
  files (Fs ∅ ∅) !! "7/7_unpaired.fasta" = None
  ∧ files (run_on (Fs ∅ ∅)
             (distribute_reads [[("readX", "ACGT", "IIII")]]
                {[ "readX" := ["7"] ]} true false))
      !! "7/7_unpaired.fasta"
    = Some (">readX" +:+ Py.nl +:+ "ACGT" +:+ Py.nl)
  ∧ files (run_on
             (run_on (Fs ∅ ∅)
                (distribute_reads [[("readX", "ACGT", "IIII")]]
                   {[ "readX" := ["7"] ]} true false))
             (distribute_reads [[("readX", "ACGT", "IIII")]]
                {[ "readX" := ["7"] ]} true false))
      !! "7/7_unpaired.fasta"
    = Some ((">readX" +:+ Py.nl +:+ "ACGT" +:+ Py.nl)
            +:+ (">readX" +:+ Py.nl +:+ "ACGT" +:+ Py.nl)).
Proof.
  assert (Hnone : files (Fs ∅ ∅) !! "7/7_unpaired.fasta" = None)
    by apply lookup_empty.
  assert (Hone : files (run_on (Fs ∅ ∅)
                          (distribute_reads [[("readX", "ACGT", "IIII")]]
                             {[ "readX" := ["7"] ]} true false))
                   !! "7/7_unpaired.fasta"
                 = Some (">readX" +:+ Py.nl +:+ "ACGT" +:+ Py.nl))
    by by vm_compute.
  split; [exact Hnone|]. split; [exact Hone|].
  destruct (rerun_duplicates [[("readX", "ACGT", "IIII")]]
              {[ "readX" := ["7"] ]} true false (Fs ∅ ∅))
    as (_ & _ & _ & Htwice & _).
  rewrite (Htwice _ Hnone), Hone. reflexivity.
Defined.

(** ** The format of a paired write *)

Lemma prefix_nil s : String.prefix "" s = true.
Proof. by destruct s. Qed.

Lemma startswith_slash_app c t x :
  Py.startswith (String c t +:+ x) "/" = Py.startswith (String c t) "/".
Proof.
  unfold Py.startswith. rewrite string_app_cons. cbn [String.prefix].
  destruct (ascii_dec "/" c); [|done]. by rewrite !prefix_nil.
Qed.

(** Distinct file names under one target give distinct paths. *)
Lemma path_join_app_inj a x y :
  Py.startswith x "/" = false → Py.startswith y "/" = false →
  Py.path_join a (a +:+ x) = Py.path_join a (a +:+ y) → x = y.
Proof.
  intros Hx Hy. unfold Py.path_join. destruct a as [|c t].
  - change ("" +:+ x) with x. change ("" +:+ y) with y. by rewrite Hx, Hy.
  - rewrite !startswith_slash_app.
    destruct (Py.startswith (String c t) "/").
    + apply (inj (String.app _)).
    + destruct (_ || _); intros H.
      * by do 2 apply (inj (String.app _)) in H.
      * by do 3 apply (inj (String.app _)) in H.
Qed.

Lemma interleaved_paths_differ target :
  interleaved_fastq target ≠ interleaved_fasta target.
Proof. by intros H%path_join_app_inj. Qed.

(** C7. A paired write as [distribute_reads] issues it ([single=True])
    appends to the interleaved FASTA file of the target the record of mate 1
    and then the record of mate 2; with [merged] it first appends both mates
    as four-line FASTQ records, each with a [+] line, to the interleaved
    FASTQ file, and without [merged] it leaves the FASTQ file alone.  Every
    iteration of the paired loop writes through this function. *)
Theorem paired_write_format (target ID1 Seq1 Qual1 ID2 Seq2 Qual2 : string)
    (merged : bool) (st : fs) :
  let w := write_paired_seqs target ID1 Seq1 Qual1 ID2 Seq2 Qual2 true merged in
  let fa := interleaved_fasta target in
  let fq := interleaved_fastq target in
  let fasta1 := ">" +:+ ID1 +:+ Py.nl +:+ Seq1 +:+ Py.nl in
  let fasta2 := ">" +:+ ID2 +:+ Py.nl +:+ Seq2 +:+ Py.nl in
  let fastq1 := "@" +:+ ID1 +:+ Py.nl +:+ Seq1 +:+ Py.nl +:+ "+" +:+ Py.nl
                +:+ Qual1 +:+ Py.nl in
  let fastq2 := "@" +:+ ID2 +:+ Py.nl +:+ Seq2 +:+ Py.nl +:+ "+" +:+ Py.nl
                +:+ Qual2 +:+ Py.nl in
  w = (Makedirs target
       :: (if merged
           then [Open fq ModeAppend; Write fq fastq1; Write fq fastq2; Close fq]
           else [])
       ++ [Open fa ModeAppend; Write fa fasta1; Write fa fasta2; Close fa],
       inr tt)
  ∧ files (run_on st w) !! fa = Some (content st fa +:+ fasta1 +:+ fasta2)
  ∧ files (run_on st w) !! fq
    = (if merged then Some (content st fq +:+ fastq1 +:+ fastq2)
       else files st !! fq)
  ∧ (∀ d rec1 rec2,
       has_field rec1 → has_field rec2 →
       log (paired_body d merged rec1 rec2)
       = flat_map
           (λ t, log (write_paired_seqs t
                        (strip_paired (first_field rec1.1.1)) rec1.1.2 rec1.2
                        (strip_paired (first_field rec2.1.1)) rec2.1.2 rec2.2
                        true merged))
           (pair_targets d (strip_paired (first_field rec1.1.1))
                           (strip_paired (first_field rec2.1.1)))).
Proof.
  intros w fa fq fasta1 fasta2 fastq1 fastq2.
  assert (Hw : w = (paired_events target ID1 Seq1 Qual1 ID2 Seq2 Qual2 merged,
                    inr tt)) by apply write_paired_seqs_events.
  assert (Hne : fq ≠ fa) by apply interleaved_paths_differ.
  assert (Hq : forallb append_only (log w) = true)
    by apply appends_only_write_paired_seqs.
  split; [exact Hw|]. split; [|split].
  - unfold run_on. rewrite (files_apply_log _ _ _ Hq), Hw.
    unfold paired_events, log. cbn [fst].
    change (Py.path_join target (target +:+ "_interleaved.fasta")) with fa.
    change (Py.path_join target (target +:+ "_interleaved.fastq")) with fq.
    destruct merged; cbn [touched appended app];
      rewrite ?(bool_decide_eq_false_2 (fq = fa)) by done;
      rewrite ?(decide_False (P := fq = fa)) by done;
      rewrite !(bool_decide_eq_true_2 (fa = fa)) by done;
      rewrite !(decide_True (P := fa = fa)) by done;
      cbn [orb]; by rewrite string_app_nil_r.
  - unfold run_on. rewrite (files_apply_log _ _ _ Hq), Hw.
    unfold paired_events, log. cbn [fst].
    change (Py.path_join target (target +:+ "_interleaved.fasta")) with fa.
    change (Py.path_join target (target +:+ "_interleaved.fastq")) with fq.
    assert (Hne' : fa ≠ fq) by done.
    destruct merged; cbn [touched appended app];
      rewrite ?(bool_decide_eq_false_2 (fa = fq)) by done;
      rewrite ?(decide_False (P := fa = fq)) by done;
      rewrite ?(bool_decide_eq_true_2 (fq = fq)) by done;
      rewrite ?(decide_True (P := fq = fq)) by done;
      cbn [orb]; by rewrite ?string_app_nil_r.
  - intros d rec1 rec2 Hf1 Hf2.
    rewrite (paired_body_events _ _ _ _ Hf1 Hf2). unfold pair_events, log.
    cbn [fst]. apply flat_map_ext. intros t.
    by rewrite write_paired_seqs_events.
Qed.

(** The paired scenario: [readX/1] and [readX/2] under target [7], with the
    merged flag. *)
Lemma paired_write_format_example :
  has_field ("readX/1", "ACGT", "IIII") ∧ has_field ("readX/2", "TTTT", "JJJJ")
  ∧ files (run_on (Fs ∅ ∅)
             (write_paired_seqs "7" "readX" "ACGT" "IIII" "readX" "TTTT" "JJJJ"
                true true))
      !! "7/7_interleaved.fasta"
    = Some (">readX" +:+ Py.nl +:+ "ACGT" +:+ Py.nl
            +:+ ">readX" +:+ Py.nl +:+ "TTTT" +:+ Py.nl)
  ∧ log (paired_body {[ "readX" := ["7"] ]} true
           ("readX/1", "ACGT", "IIII") ("readX/2", "TTTT", "JJJJ"))
    = [Makedirs "7";
       Open "7/7_interleaved.fastq" ModeAppend;
       Write "7/7_interleaved.fastq"
         ("@readX" +:+ Py.nl +:+ "ACGT" +:+ Py.nl +:+ "+" +:+ Py.nl
          +:+ "IIII" +:+ Py.nl);
       Write "7/7_interleaved.fastq"
         ("@readX" +:+ Py.nl +:+ "TTTT" +:+ Py.nl +:+ "+" +:+ Py.nl
          +:+ "JJJJ" +:+ Py.nl);
       Close "7/7_interleaved.fastq";
       Open "7/7_interleaved.fasta" ModeAppend;
       Write "7/7_interleaved.fasta" (">readX" +:+ Py.nl +:+ "ACGT" +:+ Py.nl);
       Write "7/7_interleaved.fasta" (">readX" +:+ Py.nl +:+ "TTTT" +:+ Py.nl);
       Close "7/7_interleaved.fasta"].
Proof.
  assert (H1 : has_field ("readX/1", "ACGT", "IIII")) by by vm_compute.
  assert (H2 : has_field ("readX/2", "TTTT", "JJJJ")) by by vm_compute.
  destruct (paired_write_format "7" "readX" "ACGT" "IIII" "readX" "TTTT" "JJJJ"
              true (Fs ∅ ∅)) as (_ & Hfa & _ & Hbody).
  split; [exact H1|]. split; [exact H2|]. split.
  - etrans; [exact Hfa|]. reflexivity.
  - etrans; [exact (Hbody _ _ _ H1 H2)|]. reflexivity.
Defined.

(** ** Invariants of the hit index *)

Lemma has_space_after_last sep s :
  has_space s = false → has_space (after_last sep s) = false.
Proof.
  induction s as [|c s IH]; [done|]. simpl.
  intros [Hc Hs]%orb_false_elim.
  destruct (has_char sep s); [by apply IH|].
  destruct (Ascii.eqb c sep); [done|]. simpl. by rewrite Hc, Hs.
Qed.

Lemma elem_of_targets_of r t lines :
  t ∈ targets_of r lines ↔ ∃ line, line ∈ lines ∧ hit line = Some (r, t).
Proof.
  unfold targets_of. rewrite list_elem_of_omap. split.
  - intros (line & Hin & Hline). exists line. split; [done|].
    destruct (hit line) as [[r' t']|]; [|done]. simpl in Hline.
    case_decide; [|done]. by simplify_eq.
  - intros (line & Hin & Hhit). exists line. split; [done|].
    rewrite Hhit. simpl. by rewrite decide_True.
Qed.

Lemma hit_fields line r t :
  hit line = Some (r, t) →
  r ∈ Py.split line ∧ ∃ ref, ref ∈ Py.split line ∧ t = after_last "-" ref.
Proof.
  unfold hit. destruct (Py.split line) as [|f0 [|f1 [|f2 fs]]]; try done.
  intros [= <- <-]. split; [by left|].
  exists f2. split; [|done]. by do 2 right; left.
Qed.

(** A run of [read_sorting] that returns a dict read only well-formed
    lines, and issued no request. *)
Lemma read_sorting_ok lines d :
  outcome (read_sorting lines) = inr d →
  Forall (λ line, (3 ≤ length (Py.split line))%nat) lines
  ∧ read_sorting lines = ([], inr d).
Proof.
  intros Hd.
  assert (Hwf : Forall (λ line, (3 ≤ length (Py.split line))%nat) lines).
  { apply Forall_forall. intros line Hin.
    destruct (decide (3 ≤ length (Py.split line))%nat) as [|Hshort]; [done|].
    assert (Hex : Exists (λ line, (length (Py.split line) < 3)%nat) lines).
    { apply Exists_exists. exists line. split; [done|lia]. }
    unfold read_sorting in Hd.
    by rewrite (read_sorting_loop_short _ _ Hex) in Hd. }
  split; [done|].
  destruct (read_sorting_loop_spec lines ∅ Hwf) as (d' & Hrun & _).
  unfold read_sorting in *. rewrite Hrun in Hd |- *.
  by injection Hd as ->.
Qed.

Lemma read_sorting_lookup lines d :
  read_sorting lines = ([], inr d) →
  ∀ r, d !! r = match targets_of r lines with
                | [] => None
                | ts => Some (dedup_first ts)
                end.
Proof.
  intros Hd. destruct (read_sorting_ok lines d) as [Hwf _].
  { by rewrite Hd. }
  destruct (read_sorting_loop_spec lines ∅ Hwf) as (d' & Hrun & Hlook).
  unfold read_sorting in Hd. rewrite Hrun in Hd. injection Hd as ->.
  intros r. rewrite Hlook, lookup_empty. unfold extend.
  destruct (targets_of r lines); [done|]. simpl default.
  by rewrite add_targets_nil.
Qed.

(** X1. Whenever [read_sorting] returns a dict, every key is a non-empty
    string without whitespace, no key has an empty target list, no target
    occurs twice under a key, and no target holds a hyphen or whitespace. *)
Theorem read_sorting_index_invariants (lines : list string)
    (d : gmap string (list string)) :
  outcome (read_sorting lines) = inr d →
  ∀ r ts, d !! r = Some ts →
    r ≠ "" ∧ has_space r = false
    ∧ ts ≠ [] ∧ NoDup ts
    ∧ ∀ t, t ∈ ts → has_char "-" t = false ∧ has_space t = false.
Proof.
  intros Hd r ts Hr.
  destruct (read_sorting_ok _ _ Hd) as [_ Hrun].
  rewrite (read_sorting_lookup _ _ Hrun) in Hr.
  destruct (targets_of r lines) as [|t0 tl] eqn:E; [done|].
  assert (ts = dedup_first (t0 :: tl)) as -> by congruence.
  assert (Ht0 : t0 ∈ targets_of r lines) by (rewrite E; by left).
  apply (proj1 (elem_of_targets_of _ _ _)) in Ht0 as (line0 & _ & Hhit0).
  destruct (hit_fields _ _ _ Hhit0) as [Hr0 _].
  destruct (split_fields _ _ Hr0) as [Hne Hsp].
  split; [done|]. split; [done|]. split; [done|].
  split; [apply dedup_first_NoDup|].
  intros t Ht. apply (proj1 (dedup_first_elem_of _ _)) in Ht.
  rewrite <- E in Ht.
  apply (proj1 (elem_of_targets_of _ _ _)) in Ht as (line & _ & Hhit).
  destruct (hit_fields _ _ _ Hhit) as [_ (ref & Href & ->)].
  split; [apply after_last_no_sep|].
  apply has_space_after_last. by apply (split_fields line).
Qed.

Lemma read_sorting_index_invariants_example :
  outcome (read_sorting example_hits) = inr {[ "readA" := ["5968"; "6128"] ]}
  ∧ ("readA" ≠ "" ∧ has_space "readA" = false
     ∧ ["5968"; "6128"] ≠ [] ∧ NoDup ["5968"; "6128"]
     ∧ ∀ t, t ∈ ["5968"; "6128"] →
            has_char "-" t = false ∧ has_space t = false).
Proof.
  assert (Hd : outcome (read_sorting example_hits)
               = inr {[ "readA" := ["5968"; "6128"] ]}) by by vm_compute.
  split; [exact Hd|].
  apply (read_sorting_index_invariants example_hits _ Hd "readA").
  apply lookup_singleton_eq.
Defined.

Lemma elem_of_read_ids r lines :
  r ∈ read_ids lines ↔ ∃ line t, line ∈ lines ∧ hit line = Some (r, t).
Proof.
  unfold read_ids. rewrite list_elem_of_omap. split.
  - intros (line & Hin & Hline). exists line.
    destruct (hit line) as [[r' t]|]; [|done]. simpl in Hline.
    exists t. split; [done|]. by simplify_eq.
  - intros (line & t & Hin & Hhit). exists line. split; [done|].
    by rewrite Hhit.
Qed.

Lemma read_sorting_is_key lines d :
  read_sorting lines = ([], inr d) →
  ∀ r, is_Some (d !! r) ↔ r ∈ read_ids lines.
Proof.
  intros Hrun r. rewrite (read_sorting_lookup _ _ Hrun), elem_of_read_ids.
  split.
  - destruct (targets_of r lines) as [|t0 tl] eqn:E; [by intros [? ?]|].
    intros _. assert (Ht0 : t0 ∈ targets_of r lines) by (rewrite E; by left).
    apply (proj1 (elem_of_targets_of _ _ _)) in Ht0 as (line & Hin & Hhit).
    by exists line, t0.
  - intros (line & t & Hin & Hhit).
    assert (Ht : t ∈ targets_of r lines).
    { apply elem_of_targets_of. by exists line. }
    destruct (targets_of r lines); [by apply elem_of_nil in Ht|done].
Qed.

(** X2. Whenever [read_sorting] returns a dict, its keys are exactly the
    read identifiers found in field 0 of the lines, and [len(read_hit_dict)],
    the number that [main] reports as unique reads with hits, is the number
    of distinct such identifiers. *)
Theorem read_sorting_keys (lines : list string)
    (d : gmap string (list string)) :
  outcome (read_sorting lines) = inr d →
  (∀ r, is_Some (d !! r) ↔ r ∈ read_ids lines)
  ∧ size d = length (remove_dups (read_ids lines)).
Proof.
  intros Hd. destruct (read_sorting_ok _ _ Hd) as [_ Hrun].
  pose proof (read_sorting_is_key _ _ Hrun) as Hkey.
  split; [exact Hkey|].
  rewrite <- size_dom.
  assert (Hdom : dom d = list_to_set (remove_dups (read_ids lines))).
  { apply set_eq. intros r.
    by rewrite elem_of_dom, Hkey, elem_of_list_to_set, elem_of_remove_dups. }
  rewrite Hdom. apply size_list_to_set, NoDup_remove_dups.
Qed.

Lemma read_sorting_keys_example :
  outcome (read_sorting example_hits) = inr {[ "readA" := ["5968"; "6128"] ]}
  ∧ size ({[ "readA" := ["5968"; "6128"] ]} : gmap string (list string))
    = length (remove_dups (read_ids example_hits)).
Proof.
  assert (Hd : outcome (read_sorting example_hits)
               = inr {[ "readA" := ["5968"; "6128"] ]}) by by vm_compute.
  split; [exact Hd|].
  exact (proj2 (read_sorting_keys example_hits _ Hd)).
Defined.

Lemma filter_none {A} (P : A → Prop) `{!∀ x, Decision (P x)} (l : list A) :
  (∀ x, x ∈ l → ¬ P x) → filter P l = [].
Proof.
  induction l as [|x l IH]; [done|]. intros Hl.
  rewrite filter_cons_False by (apply Hl; by left).
  apply IH. intros y Hy. apply Hl. by right.
Qed.

Lemma dedup_first_app_subseteq (a b : list string) :
  b ⊆ a → dedup_first (a ++ b) = dedup_first a.
Proof.
  intros Hsub. rewrite <- !add_targets_nil. unfold add_targets.
  rewrite foldl_app. fold (add_targets [] a).
  fold (add_targets (add_targets [] a) b).
  rewrite add_targets_dedup, add_targets_nil.
  rewrite filter_none; [apply app_nil_r|].
  intros x Hx Hnot. apply Hnot, dedup_first_elem_of, Hsub, Hx.
Qed.

Lemma read_sorting_wf lines :
  Forall (λ line, (3 ≤ length (Py.split line))%nat) lines →
  ∃ d, read_sorting lines = ([], inr d).
Proof.
  intros Hwf. destruct (read_sorting_loop_spec lines ∅ Hwf) as (d & Hrun & _).
  by exists d.
Qed.

Lemma read_sorting_not_wf lines :
  ¬ Forall (λ line, (3 ≤ length (Py.split line))%nat) lines →
  read_sorting lines = ([], inl IndexError).
Proof.
  intros Hno. apply read_sorting_loop_short.
  apply not_Forall_Exists in Hno; [|apply _].
  eapply Exists_impl; [exact Hno|]. intros line Hline. simpl in Hline. lia.
Qed.

(** X3. Lines that repeat lines already read change nothing: appending to
    the alignment output any lines that occur in it gives the same result,
    the same dict or the same [IndexError].  In particular the output
    concatenated with itself gives the index of the output. *)
Theorem read_sorting_repeated_lines (lines lines' : list string) :
  lines' ⊆ lines →
  read_sorting (lines ++ lines') = read_sorting lines.
Proof.
  intros Hsub.
  destruct (decide (Forall (λ line, (3 ≤ length (Py.split line))%nat) lines))
    as [Hwf|Hno].
  - assert (Hwf' : Forall (λ line, (3 ≤ length (Py.split line))%nat)
                     (lines ++ lines')).
    { apply Forall_app. split; [done|]. apply Forall_forall. intros line Hin.
      rewrite Forall_forall in Hwf. by apply Hwf, Hsub. }
    destruct (read_sorting_wf _ Hwf) as [d Hd].
    destruct (read_sorting_wf _ Hwf') as [d' Hd'].
    rewrite Hd, Hd'. do 2 f_equal. apply map_eq. intros r.
    rewrite (read_sorting_lookup _ _ Hd), (read_sorting_lookup _ _ Hd').
    unfold targets_of at 1 2. rewrite omap_app. fold (targets_of r lines).
    fold (targets_of r lines').
    assert (Hts : targets_of r lines' ⊆ targets_of r lines).
    { intros t (line & Hin & Hhit)%elem_of_targets_of.
      apply elem_of_targets_of. exists line. split; [by apply Hsub|done]. }
    destruct (targets_of r lines) as [|t0 tl] eqn:E.
    + destruct (targets_of r lines') as [|t1 tl']; [done|].
      exfalso. eapply elem_of_nil, Hts. by left.
    + rewrite <- (dedup_first_app_subseteq _ _ Hts). done.
  - rewrite (read_sorting_not_wf _ Hno). apply read_sorting_not_wf.
    intros [Hwf _]%Forall_app. by apply Hno.
Qed.

Lemma read_sorting_repeated_lines_example :
  example_hits ⊆ example_hits
  ∧ read_sorting (example_hits ++ example_hits) = read_sorting example_hits.
Proof.
  assert (Hsub : example_hits ⊆ example_hits) by (by intros line Hin).
  split; [exact Hsub|]. exact (read_sorting_repeated_lines _ _ Hsub).
Defined.

(** X4. The order of the alignment lines decides only the order inside the
    target lists: when [read_sorting] returns a dict for some lines, it
    returns one for every reordering of them, with the same keys and, under
    each key, the same targets up to order. *)
Theorem read_sorting_permutation (lines lines' : list string)
    (d : gmap string (list string)) :
  lines ≡ₚ lines' →
  outcome (read_sorting lines) = inr d →
  ∃ d', read_sorting lines' = ([], inr d')
        ∧ dom d' = dom d
        ∧ ∀ r ts, d !! r = Some ts → ∃ ts', d' !! r = Some ts' ∧ ts' ≡ₚ ts.
Proof.
  intros Hperm Hd. destruct (read_sorting_ok _ _ Hd) as [Hwf Hrun].
  rewrite Hperm in Hwf. destruct (read_sorting_wf _ Hwf) as [d' Hrun'].
  exists d'. split; [done|].
  assert (Hts : ∀ r, targets_of r lines ≡ₚ targets_of r lines').
  { intros r. unfold targets_of. by rewrite Hperm. }
  assert (Hlook : ∀ r ts, d !! r = Some ts →
                          ∃ ts', d' !! r = Some ts' ∧ ts' ≡ₚ ts).
  { intros r ts. rewrite (read_sorting_lookup _ _ Hrun),
      (read_sorting_lookup _ _ Hrun').
    pose proof (Hts r) as Hp.
    destruct (targets_of r lines) as [|t0 tl] eqn:E; [done|].
    destruct (targets_of r lines') as [|t0' tl'] eqn:E'.
    { by apply Permutation_nil_r in Hp. }
    intros Heq. assert (ts = dedup_first (t0 :: tl)) as -> by congruence.
    exists (dedup_first (t0' :: tl')). split; [done|].
    apply NoDup_Permutation; [apply dedup_first_NoDup..|].
    intros t. rewrite !dedup_first_elem_of. by rewrite Hp. }
  split; [|exact Hlook].
  apply set_eq. intros r.
  rewrite !elem_of_dom, (read_sorting_is_key _ _ Hrun),
    (read_sorting_is_key _ _ Hrun').
  unfold read_ids. by rewrite Hperm.
Qed.

Lemma read_sorting_permutation_example :
  example_hits ≡ₚ reverse example_hits
  ∧ outcome (read_sorting example_hits) = inr {[ "readA" := ["5968"; "6128"] ]}
  ∧ ∃ d', read_sorting (reverse example_hits) = ([], inr d')
          ∧ dom d' = dom ({[ "readA" := ["5968"; "6128"] ]}
                          : gmap string (list string)).
Proof.
  assert (Hperm : example_hits ≡ₚ reverse example_hits)
    by (symmetry; apply reverse_Permutation).
  assert (Hd : outcome (read_sorting example_hits)
               = inr {[ "readA" := ["5968"; "6128"] ]}) by by vm_compute.
  split; [exact Hperm|]. split; [exact Hd|].
  destruct (read_sorting_permutation _ _ _ Hperm Hd) as (d' & Hrun & Hdom & _).
  by exists d'.
Defined.

(** ** Split mode *)

(** Rewrites the path comparisons of [touched] and [appended] with the
    equalities and disequalities at hand. *)
Ltac decide_paths :=
  repeat first
    [ rewrite bool_decide_eq_true_2 by done
    | rewrite bool_decide_eq_false_2 by done
    | rewrite decide_True by done
    | rewrite decide_False by done ].

(** X5. With [single=False] a paired write appends the record of mate 1 to
    the target's [_1.fasta] file and the record of mate 2 to its [_2.fasta]
    file, whatever [merged] is, and leaves both interleaved files as they
    were. *)
Theorem paired_write_split (target ID1 Seq1 Qual1 ID2 Seq2 Qual2 : string)
    (merged : bool) (st : fs) :
  let w := write_paired_seqs target ID1 Seq1 Qual1 ID2 Seq2 Qual2 false merged in
  let f1 := split_fasta1 target in
  let f2 := split_fasta2 target in
  let fasta1 := ">" +:+ ID1 +:+ Py.nl +:+ Seq1 +:+ Py.nl in
  let fasta2 := ">" +:+ ID2 +:+ Py.nl +:+ Seq2 +:+ Py.nl in
  w = ([Makedirs target; Open f1 ModeAppend; Write f1 fasta1;
        Open f2 ModeAppend; Write f2 fasta2; Close f1; Close f2], inr tt)
  ∧ files (run_on st w) !! f1 = Some (content st f1 +:+ fasta1)
  ∧ files (run_on st w) !! f2 = Some (content st f2 +:+ fasta2)
  ∧ files (run_on st w) !! interleaved_fasta target
    = files st !! interleaved_fasta target
  ∧ files (run_on st w) !! interleaved_fastq target
    = files st !! interleaved_fastq target.
Proof.
  intros w f1 f2 fasta1 fasta2.
  assert (Hw : w = ([Makedirs target; Open f1 ModeAppend; Write f1 fasta1;
                     Open f2 ModeAppend; Write f2 fasta2; Close f1; Close f2],
                    inr tt)) by done.
  assert (H12 : f1 ≠ f2) by (by intros H%path_join_app_inj).
  assert (H21 : f2 ≠ f1) by done.
  assert (H1a : f1 ≠ interleaved_fasta target)
    by (by intros H%path_join_app_inj).
  assert (H2a : f2 ≠ interleaved_fasta target)
    by (by intros H%path_join_app_inj).
  assert (H1q : f1 ≠ interleaved_fastq target)
    by (by intros H%path_join_app_inj).
  assert (H2q : f2 ≠ interleaved_fastq target)
    by (by intros H%path_join_app_inj).
  split; [exact Hw|].
  unfold run_on. rewrite !files_apply_log by (by rewrite Hw).
  rewrite Hw. unfold log. cbn [fst touched appended].
  decide_paths. cbn [orb]. by rewrite !string_app_nil_r.
Qed.

(** ** What a run never touches *)

Lemma log_Forall_bind {A B} (P : event → Prop) (m : M A) (f : A → M B) :
  Forall P (log m) → (∀ a, Forall P (log (f a))) → Forall P (log (m ≫= f)).
Proof.
  destruct m as [l [e|a]]; [done|]. intros Hl Hf.
  rewrite bind_ok. cbn [log fst] in *. apply Forall_app. split; [done|].
  apply Hf.
Qed.

Lemma log_Forall_item {A} (P : event → Prop) (l : list A) i :
  Forall P (log (item l i)).
Proof. unfold item. destruct (l !! i); constructor. Qed.

Lemma log_Forall_next {A} (P : event → Prop) (it : option (list A)) :
  Forall P (log (next it)).
Proof. destruct it as [[|x rest]|]; constructor. Qed.

Lemma log_Forall_for_each {A} (P : event → Prop) (l : list A)
    (body : A → M unit) :
  (∀ x, x ∈ l → Forall P (log (body x))) → Forall P (log (for_each l body)).
Proof.
  induction l as [|x l IH]; intros Hbody; [constructor|].
  cbn [for_each]. apply log_Forall_bind; [apply Hbody; by left|].
  intros _. apply IH. intros y Hy. apply Hbody. by right.
Qed.

Lemma single_events_of_target t ID1 Seq1 :
  Forall (λ e, event_of_target e t [unpaired_path t])
         (single_events t ID1 Seq1).
Proof.
  unfold single_events. cbv zeta. fold (unpaired_path t).
  repeat apply Forall_cons_2; [by left|..|apply Forall_nil_2];
    right; exists (unpaired_path t); (split; [by left|]); eauto.
Qed.

Lemma paired_events_of_target t ID1 Seq1 Qual1 ID2 Seq2 Qual2 (merged : bool) :
  Forall (λ e, event_of_target e t
                 (interleaved_fasta t
                  :: (if merged then [interleaved_fastq t] else [])))
         (paired_events t ID1 Seq1 Qual1 ID2 Seq2 Qual2 merged).
Proof.
  unfold paired_events. cbv zeta.
  fold (interleaved_fasta t). fold (interleaved_fastq t).
  apply Forall_cons_2; [by left|]. apply Forall_app. split.
  - destruct merged; [|constructor].
    repeat apply Forall_cons_2; [..|apply Forall_nil_2];
      right; exists (interleaved_fastq t); (split; [by right; left|]); eauto.
  - repeat apply Forall_cons_2; [..|apply Forall_nil_2];
      right; exists (interleaved_fasta t); (split; [by left|]); eauto.
Qed.

Lemma single_body_of_target d rec :
  Forall (λ e, ∃ t, index_target d t ∧ event_of_target e t [unpaired_path t])
         (log (single_body d rec)).
Proof.
  destruct rec as [[title seq] qual]. unfold single_body.
  apply log_Forall_bind; [apply log_Forall_item|]. intros ID1. cbv zeta.
  destruct (d !! strip_single ID1) as [ts|] eqn:Hts; [|constructor].
  apply log_Forall_for_each. intros t Ht.
  rewrite write_single_seqs_events. cbn [log fst].
  eapply Forall_impl; [apply single_events_of_target|].
  intros e He. exists t. split; [|done]. by exists (strip_single ID1), ts.
Qed.

Lemma paired_body_of_target d (merged : bool) rec1 rec2 :
  Forall (λ e, ∃ t, index_target d t
                    ∧ event_of_target e t
                        (interleaved_fasta t
                         :: (if merged then [interleaved_fastq t] else [])))
         (log (paired_body d merged rec1 rec2)).
Proof.
  destruct rec1 as [[title1 seq1] qual1], rec2 as [[title2 seq2] qual2].
  unfold paired_body.
  apply log_Forall_bind; [apply log_Forall_item|]. intros ID1. cbv zeta.
  apply log_Forall_bind; [apply log_Forall_item|]. intros ID2.
  assert (Hwrite : ∀ k ts, d !! k = Some ts →
    Forall (λ e, ∃ t, index_target d t
                      ∧ event_of_target e t
                          (interleaved_fasta t
                           :: (if merged then [interleaved_fastq t] else [])))
      (log (for_each ts (λ target,
              write_paired_seqs target (strip_paired ID1) seq1 qual1
                (strip_paired ID2) seq2 qual2 true merged)))).
  { intros k ts Hk. apply log_Forall_for_each. intros t Ht.
    rewrite write_paired_seqs_events. cbn [log fst].
    eapply Forall_impl; [apply paired_events_of_target|].
    intros e He. exists t. split; [|done]. by exists k, ts. }
  destruct (d !! strip_paired ID1) as [ts|] eqn:H1; [by eapply Hwrite|].
  destruct (d !! strip_paired ID2) as [ts|] eqn:H2; [by eapply Hwrite|].
  constructor.
Qed.

Lemma paired_loop_of_target d (merged : bool) iterator1 : ∀ iterator2,
  Forall (λ e, ∃ t, index_target d t
                    ∧ event_of_target e t
                        (interleaved_fasta t
                         :: (if merged then [interleaved_fastq t] else [])))
         (log (paired_loop d merged iterator1 iterator2)).
Proof.
  induction iterator1 as [|rec1 iterator1 IH]; intros iterator2; [constructor|].
  cbn [paired_loop]. apply log_Forall_bind; [apply log_Forall_next|].
  intros [rec2 iterator2']. apply log_Forall_bind; [|intros _; apply IH].
  apply paired_body_of_target.
Qed.

(** X6. Whatever the read files and the index hold, and however the run
    ends, every request of [distribute_reads] belongs to a target that the
    index lists under some key: it creates that target's directory, or it
    opens for appending, writes or closes a file of that target.  With one
    read file that file is the unpaired FASTA file (also when [merged] is
    set); otherwise it is the interleaved FASTA file or, only when [merged]
    is set, the interleaved FASTQ file. *)
Theorem distribute_reads_only_index_targets (readfiles : list (list record))
    (d : gmap string (list string)) (single merged : bool) (e : event) :
  e ∈ log (distribute_reads readfiles d single merged) →
  ∃ t, index_target d t
       ∧ event_of_target e t (mode_paths (length readfiles) merged t).
Proof.
  revert e. apply Forall_forall. unfold distribute_reads, mode_paths.
  apply log_Forall_bind; [apply log_Forall_item|]. intros iterator1.
  case_decide.
  - apply log_Forall_for_each. intros rec _. apply single_body_of_target.
  - apply paired_loop_of_target.
Qed.

Lemma distribute_reads_only_index_targets_example :
  Write "7/7_unpaired.fasta" (">readX" +:+ Py.nl +:+ "ACGT" +:+ Py.nl)
    ∈ log (distribute_reads [[("readX", "ACGT", "IIII")]]
             {[ "readX" := ["7"] ]} true true)
  ∧ ∃ t, index_target {[ "readX" := ["7"] ]} t
         ∧ event_of_target
             (Write "7/7_unpaired.fasta"
                (">readX" +:+ Py.nl +:+ "ACGT" +:+ Py.nl))
             t (mode_paths 1 true t).
Proof.
  assert (Hin : Write "7/7_unpaired.fasta"
                  (">readX" +:+ Py.nl +:+ "ACGT" +:+ Py.nl)
                ∈ log (distribute_reads [[("readX", "ACGT", "IIII")]]
                         {[ "readX" := ["7"] ]} true true)).
  { do 2 right. by left. }
  split; [exact Hin|].
  exact (distribute_reads_only_index_targets _ _ _ _ _ Hin).
Defined.

(** ** Failure in mid-run, and runs over concatenated files *)

Lemma for_each_app {A} (body : A → M unit) l1 l2 :
  for_each (l1 ++ l2) body = (for_each l1 body;; for_each l2 body).
Proof.
  induction l1 as [|x l1 IH].
  - symmetry. apply (bind_ret_l tt).
  - cbn [app for_each]. by rewrite IH, bind_assoc.
Qed.

Lemma paired_loop_equal_length d merged s1 s2 :
  length s1 = length s2 →
  paired_loop d merged s1 (Some s2) = for_each (zip s1 s2) (pair_step d merged).
Proof.
  intros Hlen. rewrite paired_loop_zip. unfold loop_end.
  rewrite decide_True by lia. apply bind_ret_tt.
Qed.

Lemma paired_loop_app d merged s1 s1' s2 s2' :
  length s1 = length s2 →
  paired_loop d merged (s1 ++ s1') (Some (s2 ++ s2'))
  = (paired_loop d merged s1 (Some s2);; paired_loop d merged s1' (Some s2')).
Proof.
  intros Hlen.
  rewrite (paired_loop_split d merged (length s1))
    by (rewrite length_app; lia).
  rewrite take_app_length, drop_app_length.
  replace (take (length s1) (s2 ++ s2')) with s2
    by (by rewrite Hlen, take_app_length).
  replace (drop (length s1) (s2 ++ s2')) with s2'
    by (by rewrite Hlen, drop_app_length).
  by rewrite (paired_loop_equal_length d merged s1 s2 Hlen).
Qed.

Lemma run_on_bind {A B} (st : fs) (m : M A) (f : A → M B) a :
  outcome m = inr a → run_on st (m ≫= f) = run_on (run_on st m) (f a).
Proof.
  destruct m as [l [e|a']]; [done|]. intros [= ->].
  unfold run_on. rewrite bind_ok. cbn [log fst]. apply foldl_app.
Qed.

(** X7. In single-end mode a record whose title has no field ends the run
    with [IndexError] where it stands: the requests for the records before
    it have been issued, and none for it or for the records after it. *)
Theorem single_end_bad_title (d : gmap string (list string))
    (single merged : bool) (pre post : list record) (bad : record) :
  Forall has_field pre → ¬ has_field bad →
  distribute_reads [pre ++ bad :: post] d single merged
  = (flat_map (read_events d) pre, inl IndexError).
Proof.
  intros Hpre Hbad. rewrite distribute_reads_single, for_each_app.
  rewrite (for_each_events_Forall (read_events d) (single_body d) pre).
  - rewrite bind_ok. cbn [for_each].
    rewrite (single_body_no_field _ _ Hbad). cbn [log outcome fst snd].
    by rewrite app_nil_r.
  - eapply Forall_impl; [exact Hpre|]. intros rec. apply single_body_events.
Qed.

Lemma single_end_bad_title_example :
  Forall has_field [("readA", "AAAA", "IIII")]
  ∧ ¬ has_field ("", "CCCC", "IIII")
  ∧ distribute_reads [[("readA", "AAAA", "IIII"); ("", "CCCC", "IIII");
                       ("readC", "GGGG", "IIII")]] example_index true false
    = (single_events "5968" "readA" "AAAA", inl IndexError).
Proof.
  assert (Hpre : Forall has_field [("readA", "AAAA", "IIII")]).
  { apply Forall_cons_2; [by vm_compute|apply Forall_nil_2]. }
  assert (Hbad : ¬ has_field ("", "CCCC", "IIII")) by (by intros H; apply H).
  split; [exact Hpre|]. split; [exact Hbad|].
  etrans; [exact (single_end_bad_title example_index true false _
                    [("readC", "GGGG", "IIII")] _ Hpre Hbad)|].
  reflexivity.
Defined.

(** X8. In paired mode a pair in which a title has no field ends the run
    with [IndexError] where it stands: the requests for the pairs before it
    have been issued, and none for it or for the pairs after it. *)
Theorem paired_bad_title (d : gmap string (list string))
    (single merged : bool) (pre1 post1 pre2 post2 : list record)
    (rec1 rec2 : record) :
  length pre1 = length pre2 →
  Forall has_field pre1 → Forall has_field pre2 →
  ¬ (has_field rec1 ∧ has_field rec2) →
  distribute_reads [pre1 ++ rec1 :: post1; pre2 ++ rec2 :: post2] d single
    merged
  = (flat_map (λ p, pair_events d merged p.1 p.2) (zip pre1 pre2),
     inl IndexError).
Proof.
  intros Hlen H1 H2 Hbad.
  rewrite distribute_reads_paired, (paired_loop_app _ _ _ _ _ _ Hlen).
  rewrite (paired_loop_equal_length _ _ _ _ Hlen).
  rewrite for_each_pair_events by by apply Forall_zip_has_field.
  rewrite bind_ok, paired_loop_cons, (paired_body_no_field _ _ _ _ Hbad).
  cbn [log outcome fst snd]. by rewrite app_nil_r.
Qed.

Lemma paired_bad_title_example :
  length [("readX/1", "ACGT", "IIII")] = length [("readX/2", "TTTT", "JJJJ")]
  ∧ Forall has_field [("readX/1", "ACGT", "IIII")]
  ∧ Forall has_field [("readX/2", "TTTT", "JJJJ")]
  ∧ ¬ (has_field ("readY/1", "GGGG", "IIII") ∧ has_field ("", "CCCC", "JJJJ"))
  ∧ distribute_reads [[("readX/1", "ACGT", "IIII"); ("readY/1", "GGGG", "IIII")];
                      [("readX/2", "TTTT", "JJJJ"); ("", "CCCC", "JJJJ")]]
      {[ "readX" := ["7"] ]} true false
    = (paired_events "7" "readX" "ACGT" "IIII" "readX" "TTTT" "JJJJ" false,
       inl IndexError).
Proof.
  assert (H1 : Forall has_field [("readX/1", "ACGT", "IIII")]).
  { apply Forall_cons_2; [by vm_compute|apply Forall_nil_2]. }
  assert (H2 : Forall has_field [("readX/2", "TTTT", "JJJJ")]).
  { apply Forall_cons_2; [by vm_compute|apply Forall_nil_2]. }
  assert (Hbad : ¬ (has_field ("readY/1", "GGGG", "IIII")
                    ∧ has_field ("", "CCCC", "JJJJ")))
    by (by intros [_ H]; apply H).
  split; [reflexivity|]. split; [exact H1|]. split; [exact H2|].
  split; [exact Hbad|].
  etrans; [exact (paired_bad_title {[ "readX" := ["7"] ]} true false
                    [("readX/1", "ACGT", "IIII")] []
                    [("readX/2", "TTTT", "JJJJ")] []
                    ("readY/1", "GGGG", "IIII") ("", "CCCC", "JJJJ")
                    eq_refl H1 H2 Hbad)|].
  reflexivity.
Defined.

(** X9. A run over a read file is the run over its first part followed by
    the run over the rest, in single-end mode for every split and in paired
    mode for every split at the same position in both files.  So when the
    run over the first parts ends normally, running the rest afterwards
    leaves the file system as one run over the whole files does. *)
Theorem distribute_reads_in_parts (d : gmap string (list string))
    (single merged : bool) (s s' s1 s1' s2 s2' : list record) (st : fs) :
  length s1 = length s2 →
  distribute_reads [s ++ s'] d single merged
  = (distribute_reads [s] d single merged;;
     distribute_reads [s'] d single merged)
  ∧ distribute_reads [s1 ++ s1'; s2 ++ s2'] d single merged
    = (distribute_reads [s1; s2] d single merged;;
       distribute_reads [s1'; s2'] d single merged)
  ∧ (outcome (distribute_reads [s] d single merged) = inr tt →
     run_on st (distribute_reads [s ++ s'] d single merged)
     = run_on (run_on st (distribute_reads [s] d single merged))
         (distribute_reads [s'] d single merged))
  ∧ (outcome (distribute_reads [s1; s2] d single merged) = inr tt →
     run_on st (distribute_reads [s1 ++ s1'; s2 ++ s2'] d single merged)
     = run_on (run_on st (distribute_reads [s1; s2] d single merged))
         (distribute_reads [s1'; s2'] d single merged)).
Proof.
  intros Hlen.
  assert (Hs : distribute_reads [s ++ s'] d single merged
               = (distribute_reads [s] d single merged;;
                  distribute_reads [s'] d single merged)).
  { rewrite !distribute_reads_single. apply for_each_app. }
  assert (Hp : distribute_reads [s1 ++ s1'; s2 ++ s2'] d single merged
               = (distribute_reads [s1; s2] d single merged;;
                  distribute_reads [s1'; s2'] d single merged)).
  { rewrite !distribute_reads_paired. by apply paired_loop_app. }
  split; [exact Hs|]. split; [exact Hp|]. split.
  - intros Hok. rewrite Hs. exact (run_on_bind st _ _ tt Hok).
  - intros Hok. rewrite Hp. exact (run_on_bind st _ _ tt Hok).
Qed.

Lemma distribute_reads_in_parts_example :
  length [("readX/1", "ACGT", "IIII")] = length [("readX/2", "TTTT", "JJJJ")]
  ∧ outcome (distribute_reads [[("readA", "AAAA", "IIII")]] example_index
               true false) = inr tt
  ∧ run_on (Fs ∅ ∅)
      (distribute_reads [[("readA", "AAAA", "IIII")] ++ [("readC", "GGGG", "IIII")]]
         example_index true false)
    = run_on (run_on (Fs ∅ ∅)
                (distribute_reads [[("readA", "AAAA", "IIII")]] example_index
                   true false))
        (distribute_reads [[("readC", "GGGG", "IIII")]] example_index
           true false).
Proof.
  assert (Hok : outcome (distribute_reads [[("readA", "AAAA", "IIII")]]
                           example_index true false) = inr tt)
    by by vm_compute.
  split; [reflexivity|]. split; [exact Hok|].
  destruct (distribute_reads_in_parts example_index true false
              [("readA", "AAAA", "IIII")] [("readC", "GGGG", "IIII")]
              [("readX/1", "ACGT", "IIII")] [] [("readX/2", "TTTT", "JJJJ")] []
              (Fs ∅ ∅) eq_refl) as (_ & _ & Hfs & _).
  exact (Hfs Hok).
Defined.

(** ** The identifier of the single-end branch, said directly *)

Lemma string_last_char s :
  s ≠ "" → ∃ pre c, s = pre +:+ String c "" ∧ last_char s = Some c.
Proof.
  induction s as [|c s IH]; [done|]. intros _.
  destruct s as [|c' s'].
  - by exists "", c.
  - destruct IH as (pre & cl & Hs & Hl); [done|].
    exists (String c pre), cl. rewrite string_app_cons, <- Hs. done.
Qed.

Lemma drop_last2_without_last2 s : Py.drop_last 2 s = without_last2 s.
Proof.
  unfold Py.drop_last. induction s as [|c s IH]; [done|].
  destruct s as [|c1 [|c2 r]]; [done..|].
  change (without_last2 (String c (String c1 (String c2 r))))
    with (String c (without_last2 (String c1 (String c2 r)))).
  assert (E1 : (String.length (String c (String c1 (String c2 r))) - 2
                = S (String.length r))%nat) by (cbn [String.length]; lia).
  assert (E2 : (String.length (String c1 (String c2 r)) - 2
                = String.length r)%nat) by (cbn [String.length]; lia).
  rewrite E2 in IH. rewrite E1, <- IH. reflexivity.
Qed.

Lemma ascii_eqb_code c n :
  (n < 256)%nat → Ascii.eqb c (ascii_of_nat n) = (nat_of_ascii c =? n)%nat.
Proof.
  intros Hn. destruct (Ascii.eqb_spec c (ascii_of_nat n)) as [->|Hne].
  - rewrite nat_ascii_embedding by done. symmetry. apply Nat.eqb_refl.
  - symmetry. apply Nat.eqb_neq. intros Hc. apply Hne.
    by rewrite <- Hc, ascii_nat_embedding.
Qed.

Lemma endswith_one_char s c :
  Py.endswith s (String c "")
  = match last_char s with
    | Some cl => Ascii.eqb cl c
    | None => false
    end.
Proof.
  destruct (decide (s = "")) as [->|Hne]; [done|].
  destruct (string_last_char s Hne) as (pre & cl & -> & ->).
  rewrite (endswith_app pre (String cl "")) by done.
  cbn [String.eqb]. by destruct (Ascii.eqb cl c).
Qed.

(** [strip_single] is [single_end_id]: the suffix test of lines 89-90 looks
    at the last character only, and for the code points 1 and 2. *)
Lemma strip_single_id f : strip_single f = single_end_id f.
Proof.
  unfold strip_single, single_end_id, esc1, esc2.
  rewrite !endswith_one_char. destruct (last_char f) as [c|]; [|done].
  rewrite !ascii_eqb_code by lia. rewrite drop_last2_without_last2. done.
Qed.

(** ** [main]: from alignment lines to files *)

Lemma read_sorting_default lines d :
  read_sorting lines = ([], inr d) →
  ∀ r, default [] (d !! r) = hits_of lines r.
Proof.
  intros Hrun r. rewrite (read_sorting_lookup _ _ Hrun). unfold hits_of.
  by destruct (targets_of r lines).
Qed.

Lemma read_sorting_pair_targets lines d :
  read_sorting lines = ([], inr d) →
  ∀ ID1 ID2,
    pair_targets d ID1 ID2
    = match hits_of lines ID1 with
      | [] => hits_of lines ID2
      | ts => ts
      end.
Proof.
  intros Hrun ID1 ID2. unfold pair_targets.
  rewrite <- (read_sorting_default _ _ Hrun ID2).
  rewrite (read_sorting_lookup _ _ Hrun ID1). unfold hits_of.
  by destruct (targets_of ID1 lines).
Qed.

Lemma main_log_single lines source merged d :
  read_sorting lines = ([], inr d) → Forall has_field source →
  log (main lines [source] merged)
  = flat_map (λ rec, flat_map (λ t, single_events t (single_key rec) rec.1.2)
                       (hits_of lines (single_key rec))) source.
Proof.
  intros Hd Hsource. unfold main. rewrite Hd, bind_ok. cbn [app log fst].
  rewrite distribute_reads_single.
  rewrite (for_each_events_Forall (read_events d) (single_body d) source).
  - cbn [fst]. apply flat_map_ext. intros rec.
    unfold read_events, single_key. by rewrite (read_sorting_default _ _ Hd).
  - eapply Forall_impl; [exact Hsource|]. intros rec. apply single_body_events.
Qed.

Lemma main_log_paired lines source1 source2 merged d :
  read_sorting lines = ([], inr d) → length source1 = length source2 →
  Forall has_field source1 → Forall has_field source2 →
  log (main lines [source1; source2] merged)
  = flat_map
      (λ p : record * record,
         flat_map (λ t, paired_events t
                          (strip_paired (first_field p.1.1.1)) p.1.1.2 p.1.2
                          (strip_paired (first_field p.2.1.1)) p.2.1.2 p.2.2
                          merged)
           (pair_hits lines p))
      (zip source1 source2).
Proof.
  intros Hd Hlen H1 H2. unfold main. rewrite Hd, bind_ok. cbn [app log fst].
  rewrite distribute_reads_paired, (paired_loop_equal_length _ _ _ _ Hlen).
  rewrite for_each_pair_events by by apply Forall_zip_has_field.
  cbn [fst]. apply flat_map_ext. intros [rec1 rec2].
  unfold pair_events, pair_hits. cbn [fst snd].
  by rewrite (read_sorting_pair_targets _ _ Hd).
Qed.

(** X10. The requests that [main] issues on alignment lines of at least
    three fields whose targets are plain names, and one read file whose
    titles have a field, each request being served: for every record, in
    the order of the file, one append of its FASTA record to the unpaired
    FASTA file of each distinct target that some alignment line gives for
    the record's identifier, and nothing else.  The identifier is the first
    field of the title as it stands, a trailing [/1] or [/2] included; only
    a last character of code point 1 or 2 takes the last two characters
    off. *)
Theorem main_single_end (lines : list string) (source : list record)
    (merged : bool) :
  Forall (λ line, (3 ≤ length (Py.split line))%nat) lines →
  plain_targets lines →
  Forall has_field source →
  log (main lines [source] merged)
  = flat_map
      (λ rec,
         let ID1 := single_end_id (first_field rec.1.1) in
         flat_map
           (λ t, [Makedirs t;
                  Open (unpaired_path t) ModeAppend;
                  Write (unpaired_path t)
                    (">" +:+ ID1 +:+ Py.nl +:+ rec.1.2 +:+ Py.nl);
                  Close (unpaired_path t)])
           (hits_of lines ID1))
      source.
Proof.
  intros Hlines _ Hsource. destruct (read_sorting_wf _ Hlines) as [d Hd].
  rewrite (main_log_single _ _ _ _ Hd Hsource).
  apply flat_map_ext. intros rec. unfold single_key.
  by rewrite strip_single_id.
Qed.

(** The mate suffix stays: [readA/1] is looked up as it stands and is not
    found; [readA] is written to both of its targets. *)
Lemma main_single_end_example :
  Forall (λ line, (3 ≤ length (Py.split line))%nat) example_hits
  ∧ plain_targets example_hits
  ∧ Forall has_field [("readA/1 x", "CCCC", "IIII"); ("readA x", "AAAA", "IIII")]
  ∧ log (main example_hits
           [[("readA/1 x", "CCCC", "IIII"); ("readA x", "AAAA", "IIII")]] true)
    = single_events "5968" "readA" "AAAA" ++ single_events "6128" "readA" "AAAA".
Proof.
  assert (Hl : Forall (λ line, (3 ≤ length (Py.split line))%nat) example_hits).
  { repeat constructor. }
  assert (Hp : plain_targets example_hits).
  { repeat apply Forall_cons_2; try apply Forall_nil_2; by vm_compute. }
  assert (Hs : Forall has_field
                 [("readA/1 x", "CCCC", "IIII"); ("readA x", "AAAA", "IIII")]).
  { repeat apply Forall_cons_2; try apply Forall_nil_2; by vm_compute. }
  split; [exact Hl|]. split; [exact Hp|]. split; [exact Hs|].
  etrans; [exact (main_single_end _ _ true Hl Hp Hs)|]. by vm_compute.
Defined.

(** X11. The requests that [main] issues on alignment lines of at least
    three fields whose targets are plain names, and two read files of equal
    record count whose titles have a field, each request being served: for
    every pair, in the order of the files, one paired write to each distinct
    target that the alignment lines give for the identifier of mate 1 or,
    when they give none for it, for the identifier of mate 2, and nothing
    else.  The identifiers are the first fields of the titles without a
    trailing [/1] or [/2]. *)
Theorem main_paired (lines : list string) (source1 source2 : list record)
    (merged : bool) :
  Forall (λ line, (3 ≤ length (Py.split line))%nat) lines →
  plain_targets lines →
  length source1 = length source2 →
  Forall has_field source1 → Forall has_field source2 →
  log (main lines [source1; source2] merged)
  = flat_map
      (λ p : record * record,
         let ID1 := spec_read_id p.1.1.1 in
         let ID2 := spec_read_id p.2.1.1 in
         flat_map
           (λ t, paired_events t ID1 p.1.1.2 p.1.2 ID2 p.2.1.2 p.2.2 merged)
           (match hits_of lines ID1 with
            | [] => hits_of lines ID2
            | ts => ts
            end))
      (zip source1 source2).
Proof.
  intros Hlines _ Hlen H1 H2. destruct (read_sorting_wf _ Hlines) as [d Hd].
  by rewrite (main_log_paired _ _ _ _ _ Hd Hlen H1 H2).
Qed.

(** Mate 1 has no hit, mate 2 has two: the pair goes to both targets of
    mate 2. *)
Lemma main_paired_example :
  Forall (λ line, (3 ≤ length (Py.split line))%nat) example_hits
  ∧ plain_targets example_hits
  ∧ length [("readZ/1", "AAAA", "IIII")] = length [("readA/2", "CCCC", "JJJJ")]
  ∧ Forall has_field [("readZ/1", "AAAA", "IIII")]
  ∧ Forall has_field [("readA/2", "CCCC", "JJJJ")]
  ∧ log (main example_hits
           [[("readZ/1", "AAAA", "IIII")]; [("readA/2", "CCCC", "JJJJ")]] false)
    = paired_events "5968" "readZ" "AAAA" "IIII" "readA" "CCCC" "JJJJ" false
      ++ paired_events "6128" "readZ" "AAAA" "IIII" "readA" "CCCC" "JJJJ" false.
Proof.
  assert (Hl : Forall (λ line, (3 ≤ length (Py.split line))%nat) example_hits).
  { repeat constructor. }
  assert (Hp : plain_targets example_hits).
  { repeat apply Forall_cons_2; try apply Forall_nil_2; by vm_compute. }
  assert (H1 : Forall has_field [("readZ/1", "AAAA", "IIII")]).
  { apply Forall_cons_2; [by vm_compute|apply Forall_nil_2]. }
  assert (H2 : Forall has_field [("readA/2", "CCCC", "JJJJ")]).
  { apply Forall_cons_2; [by vm_compute|apply Forall_nil_2]. }
  split; [exact Hl|]. split; [exact Hp|]. split; [reflexivity|].
  split; [exact H1|]. split; [exact H2|].
  etrans; [exact (main_paired example_hits [("readZ/1", "AAAA", "IIII")]
                    [("readA/2", "CCCC", "JJJJ")] false Hl Hp eq_refl H1 H2)|].
  by vm_compute.
Defined.

(** X12. When some alignment line has fewer than three fields, [main] ends
    with [IndexError] before it reads a read file: whatever the read files
    are, not one request is issued. *)
Theorem main_short_line (lines : list string) (readfiles : list (list record))
    (merged : bool) :
  Exists (λ line, (length (Py.split line) < 3)%nat) lines →
  main lines readfiles merged = ([], inl IndexError).
Proof.
  intros Hex. unfold main, read_sorting.
  by rewrite (read_sorting_loop_short _ _ Hex).
Qed.

Lemma main_short_line_example :
  Exists (λ line, (length (Py.split line) < 3)%nat)
    ["readA 0 target-5968"; "readA 0"]
  ∧ main ["readA 0 target-5968"; "readA 0"] [[("readA", "AAAA", "IIII")]] false
    = ([], inl IndexError).
Proof.
  assert (Hex : Exists (λ line, (length (Py.split line) < 3)%nat)
                  ["readA 0 target-5968"; "readA 0"]).
  { apply Exists_cons_tl, Exists_cons_hd. simpl. lia. }
  split; [exact Hex|]. exact (main_short_line _ _ _ Hex).
Defined.

(** ** [mkdir_p] *)

Section mkdir_p_facts.
Context {state : Type}.
Variable makedirs : state → string → state * option nat.
Variable isdir : state → string → bool.

(** A directory that [makedirs] created is a directory. *)
Hypothesis makedirs_creates : ∀ st path st',
  makedirs st path = (st', None) → isdir st' path = true.

(** On an existing directory [makedirs] fails with [EEXIST] and changes
    nothing. *)
Hypothesis makedirs_exists : ∀ st path,
  isdir st path = true → makedirs st path = (st, Some Os.EEXIST).

(** X13. [mkdir_p] passes over the failure of [os.makedirs] only for
    [EEXIST] on a path that is a directory, and raises every other failure
    again with its [errno].  So, over an operating system where [makedirs]
    leaves a directory behind and fails with [EEXIST] on an existing one, a
    [mkdir_p] that succeeded leaves the path a directory, and a second
    [mkdir_p] of it succeeds and changes nothing. *)
Theorem mkdir_p_idempotent (st st' : state) (path : string) :
  (∀ e, Os.mkdir_p makedirs isdir st path = (st', Some e)
        ↔ makedirs st path = (st', Some e)
          ∧ (e ≠ Os.EEXIST ∨ isdir st' path = false))
  ∧ (Os.mkdir_p makedirs isdir st path = (st', None) →
     isdir st' path = true
     ∧ Os.mkdir_p makedirs isdir st' path = (st', None)).
Proof.
  assert (Hok : Os.mkdir_p makedirs isdir st path = (st', None) →
                isdir st' path = true).
  { unfold Os.mkdir_p. destruct (makedirs st path) as [st1 [e|]] eqn:E.
    - destruct (bool_decide (e = Os.EEXIST)); [|done]. simpl.
      destruct (isdir st1 path) eqn:Hd; [|done]. by intros [= <-].
    - intros [= <-]. by eapply makedirs_creates. }
  split.
  - intros e. unfold Os.mkdir_p.
    destruct (makedirs st path) as [st1 [e1|]] eqn:E; [|by split; [|intros []]].
    destruct (decide (e1 = Os.EEXIST)) as [->|Hne].
    + rewrite bool_decide_eq_true_2 by done. simpl.
      destruct (isdir st1 path) eqn:Hd.
      * split; [done|]. intros [[= -> ->] [?|?]]; [done|congruence].
      * split; [intros [= -> ->]; by split; [|right]|by intros [[= -> ->] _]].
    + rewrite bool_decide_eq_false_2 by done. simpl.
      split; [intros [= -> ->]; by split; [|left]|by intros [[= -> ->] _]].
  - intros Hrun. pose proof (Hok Hrun) as Hd. split; [done|].
    unfold Os.mkdir_p. rewrite (makedirs_exists _ _ Hd).
    by rewrite bool_decide_eq_true_2, Hd.
Qed.

End mkdir_p_facts.

Lemma flat_makedirs_creates st path st' :
  Os.flat_makedirs st path = (st', None) → Os.flat_isdir st' path = true.
Proof.
  unfold Os.flat_makedirs, Os.flat_isdir. case_bool_decide; [done|].
  intros [= <-]. apply bool_decide_eq_true_2. simpl. set_solver.
Qed.

Lemma flat_makedirs_exists st path :
  Os.flat_isdir st path = true →
  Os.flat_makedirs st path = (st, Some Os.EEXIST).
Proof.
  unfold Os.flat_makedirs, Os.flat_isdir. intros Hd%bool_decide_eq_true_1.
  rewrite bool_decide_eq_true_2; [done|]. set_solver.
Qed.

(** A first [mkdir_p] creates the directory; the second passes over
    [EEXIST]. *)
Lemma mkdir_p_idempotent_example :
  Os.mkdir_p Os.flat_makedirs Os.flat_isdir (∅, ∅) "7" = (({["7"]} ∪ ∅, ∅), None)
  ∧ Os.flat_isdir ({["7"]} ∪ ∅, ∅) "7" = true
  ∧ Os.mkdir_p Os.flat_makedirs Os.flat_isdir ({["7"]} ∪ ∅, ∅) "7"
    = (({["7"]} ∪ ∅, ∅), None).
Proof.
  assert (Hrun : Os.mkdir_p Os.flat_makedirs Os.flat_isdir (∅, ∅) "7"
                 = (({["7"]} ∪ ∅, ∅), None)).
  { unfold Os.mkdir_p, Os.flat_makedirs.
    rewrite bool_decide_eq_false_2; [done|]. simpl.
    rewrite elem_of_union. by intros [H%elem_of_empty|H%elem_of_empty]. }
  split; [exact Hrun|].
  exact (proj2 (mkdir_p_idempotent Os.flat_makedirs Os.flat_isdir
                  flat_makedirs_creates flat_makedirs_exists _ _ _) Hrun).
Defined.

(** ** The content of the output files *)

Lemma string_app_inv_length (s1 s2 t1 t2 : string) :
  String.length s1 = String.length s2 →
  s1 +:+ t1 = s2 +:+ t2 → s1 = s2 ∧ t1 = t2.
Proof.
  revert s2. induction s1 as [|c s1 IH]; intros [|c2 s2] Hlen; try done.
  rewrite !string_app_cons. intros [= -> H]. simpl in Hlen.
  destruct (IH s2) as [-> ->]; [lia|done|done].
Qed.

Lemma string_app_inv_tail (s1 s2 t : string) : s1 +:+ t = s2 +:+ t → s1 = s2.
Proof.
  intros H. apply (string_app_inv_length s1 s2 t t); [|done].
  apply (f_equal String.length) in H. rewrite !string_app_length in H. lia.
Qed.

Lemma startswith_cons c s :
  Py.startswith (String c s) "/" = bool_decide (c = "/"%char).
Proof.
  unfold Py.startswith. cbn [String.prefix].
  destruct (ascii_dec "/" c) as [<-|Hne].
  - by rewrite prefix_nil, bool_decide_eq_true_2.
  - by rewrite bool_decide_eq_false_2.
Qed.

Lemma path_join_core a x :
  Py.startswith x "/" = false →
  Py.path_join a (a +:+ x) = path_core a +:+ x.
Proof.
  intros Hx. unfold Py.path_join, path_core. destruct a as [|c t].
  - change ("" +:+ x) with x. by rewrite Hx.
  - rewrite startswith_slash_app.
    destruct (Py.startswith (String c t) "/"); [done|].
    change (String.eqb (String c t) "") with false. cbn [orb].
    destruct (Py.endswith (String c t) "/").
    + by rewrite string_app_assoc.
    + by rewrite !string_app_assoc.
Qed.

Lemma path_core_inj a b : path_core a = path_core b → a = b.
Proof.
  unfold path_core. destruct a as [|ca ta], b as [|cb tb]; [done|..].
  - rewrite startswith_cons. by repeat case_match.
  - rewrite startswith_cons. by repeat case_match.
  - rewrite !startswith_cons.
    destruct (decide (ca = "/"%char)) as [->|Ha],
             (decide (cb = "/"%char)) as [->|Hb].
    + by rewrite !bool_decide_eq_true_2.
    + rewrite bool_decide_eq_true_2, bool_decide_eq_false_2 by done.
      repeat case_match; rewrite ?string_app_cons; intros [= Hc _];
        by destruct Hb.
    + rewrite bool_decide_eq_false_2, bool_decide_eq_true_2 by done.
      repeat case_match; rewrite ?string_app_cons; intros [= Hc _];
        by destruct Ha.
    + rewrite !bool_decide_eq_false_2 by done.
      destruct (Py.endswith (String ca ta) "/"),
               (Py.endswith (String cb tb) "/"); intros H;
        pose proof (f_equal String.length H) as HL;
        rewrite !string_app_length in HL; cbn [String.length] in HL;
        try lia;
        (apply string_app_inv_length in H as [? _];
         [done|cbn [String.length]; lia]).
Qed.

(** Two targets never share a file: the path of a file of a target
    determines the target. *)
Lemma path_join_target_inj a b x :
  Py.startswith x "/" = false →
  Py.path_join a (a +:+ x) = Py.path_join b (b +:+ x) → a = b.
Proof.
  intros Hx. rewrite !path_join_core by done.
  intros H%string_app_inv_tail. by apply path_core_inj.
Qed.

Lemma path_join_inj a b x y :
  Py.startswith x "/" = false → Py.startswith y "/" = false →
  String.length x = String.length y →
  Py.path_join a (a +:+ x) = Py.path_join b (b +:+ y) → a = b ∧ x = y.
Proof.
  intros Hx Hy Hlen. rewrite !path_join_core by done. intros H.
  assert (HL : String.length (path_core a) = String.length (path_core b)).
  { apply (f_equal String.length) in H. rewrite !string_app_length in H. lia. }
  apply string_app_inv_length in H as [Hc ->]; [|done].
  split; [by apply path_core_inj|done].
Qed.

Lemma content_apply_log l st p :
  forallb append_only l = true →
  content (apply_log st l) p = content st p +:+ appended l p.
Proof.
  intros Hl. unfold content at 1. rewrite (files_apply_log _ _ _ Hl).
  destruct (touched l p) eqn:Ht; [done|].
  by rewrite (untouched_appended _ _ Ht), string_app_nil_r.
Qed.

Lemma appended_app l1 l2 p :
  appended (l1 ++ l2) p = appended l1 p +:+ appended l2 p.
Proof.
  induction l1 as [|e l1 IH]; [done|].
  destruct e as [q|q m|q text|q]; cbn [app appended]; try done.
  case_decide; [|done]. by rewrite IH, string_app_assoc.
Qed.

Lemma appended_flat_map {A} (g : A → list event) (l : list A) p :
  appended (flat_map g l) p = join (map (λ x, appended (g x) p) l).
Proof.
  induction l as [|x l IH]; [done|].
  cbn [flat_map map join foldr]. by rewrite appended_app, IH.
Qed.

(** Over a duplicate-free target list, what the writes per target add to
    the file of [t0] is the text of [t0], if it is listed. *)
Lemma appended_flat_map_targets (ev : string → list event) (text p : string)
    (t0 : string) (ts : list string) :
  (∀ t, appended (ev t) p = if decide (t = t0) then text else "") →
  NoDup ts →
  appended (flat_map ev ts) p = if decide (t0 ∈ ts) then text else "".
Proof.
  intros Hev. induction 1 as [|t ts Hnin Hnd IH]; [done|].
  cbn [flat_map]. rewrite appended_app, Hev, IH.
  destruct (decide (t = t0)) as [->|Hne].
  - rewrite (decide_False (P := t0 ∈ ts)) by done.
    rewrite (decide_True (P := t0 ∈ t0 :: ts)) by by left.
    apply string_app_nil_r.
  - destruct (decide (t0 ∈ ts)) as [Hin|Hno].
    + by rewrite (decide_True (P := t0 ∈ t :: ts)) by by right.
    + rewrite (decide_False (P := t0 ∈ t :: ts)); [done|].
      intros [->|?]%elem_of_cons; done.
Qed.

Lemma join_filter {A} (P : A → Prop) `{!∀ x, Decision (P x)}
    (f : A → string) (l : list A) :
  join (map (λ x, if decide (P x) then f x else "") l)
  = join (map f (filter P l)).
Proof.
  induction l as [|x l IH]; [done|].
  cbn [map join foldr]. rewrite filter_cons. fold (join (map f (filter P l))).
  change (foldr String.append "" (map (λ x, if decide (P x) then f x else "") l))
    with (join (map (λ x, if decide (P x) then f x else "") l)).
  rewrite IH. by case_decide.
Qed.

Lemma appended_single_events t t0 ID1 Seq1 :
  appended (single_events t ID1 Seq1) (unpaired_path t0)
  = if decide (t = t0) then fasta_record ID1 Seq1 else "".
Proof.
  unfold single_events. cbv zeta. fold (unpaired_path t). cbn [appended].
  destruct (decide (t = t0)) as [->|Hne].
  - rewrite decide_True by done. apply string_app_nil_r.
  - rewrite decide_False; [done|].
    by intros [? _]%path_join_inj.
Qed.

Lemma appended_paired_events_fasta t t0 ID1 Seq1 Qual1 ID2 Seq2 Qual2 merged :
  appended (paired_events t ID1 Seq1 Qual1 ID2 Seq2 Qual2 merged)
    (interleaved_fasta t0)
  = if decide (t = t0) then fasta_record ID1 Seq1 +:+ fasta_record ID2 Seq2
    else "".
Proof.
  unfold paired_events. cbv zeta.
  fold (interleaved_fasta t). fold (interleaved_fastq t).
  assert (Hq : interleaved_fastq t ≠ interleaved_fasta t0).
  { by intros [_ ?]%path_join_inj. }
  cbn [appended]. rewrite appended_app.
  replace (appended (if merged then _ else _) (interleaved_fasta t0)) with "".
  2:{ destruct merged; [|done]. cbn [appended]. by rewrite !decide_False. }
  change ("" +:+ ?s) with s. cbn [appended].
  destruct (decide (t = t0)) as [->|Hne].
  - rewrite !decide_True by done. by rewrite string_app_nil_r.
  - rewrite !decide_False; [done|by intros [? _]%path_join_inj..].
Qed.

Lemma appended_paired_events_fastq t t0 ID1 Seq1 Qual1 ID2 Seq2 Qual2 merged :
  appended (paired_events t ID1 Seq1 Qual1 ID2 Seq2 Qual2 merged)
    (interleaved_fastq t0)
  = if decide (t = t0)
    then (if merged
          then fastq_record ID1 Seq1 Qual1 +:+ fastq_record ID2 Seq2 Qual2
          else "")
    else "".
Proof.
  unfold paired_events. cbv zeta.
  fold (interleaved_fasta t). fold (interleaved_fastq t).
  assert (Ha : interleaved_fasta t ≠ interleaved_fastq t0).
  { by intros [_ ?]%path_join_inj. }
  cbn [appended]. rewrite appended_app. cbn [appended].
  rewrite !(decide_False (P := interleaved_fasta t = interleaved_fastq t0))
    by done.
  rewrite string_app_nil_r.
  destruct (decide (t = t0)) as [->|Hne].
  - destruct merged; [|done]. cbn [appended].
    rewrite !decide_True by done. by rewrite string_app_nil_r.
  - destruct merged; [|done]. cbn [appended].
    rewrite !decide_False; [done|by intros [? _]%path_join_inj..].
Qed.

Lemma hits_of_NoDup lines r : NoDup (hits_of lines r).
Proof. apply dedup_first_NoDup. Qed.

Lemma pair_hits_NoDup lines p : NoDup (pair_hits lines p).
Proof.
  unfold pair_hits.
  destruct (hits_of lines (strip_paired (first_field p.1.1.1))) eqn:E.
  - apply hits_of_NoDup.
  - rewrite <- E. apply hits_of_NoDup.
Qed.

Lemma main_appends_only lines readfiles merged :
  forallb append_only (log (main lines readfiles merged)) = true.
Proof.
  apply (appends_only_bind (read_sorting lines)).
  - unfold appends_only, read_sorting.
    destruct (decide (Forall (λ line, (3 ≤ length (Py.split line))%nat) lines))
      as [Hwf|Hno].
    + destruct (read_sorting_wf _ Hwf) as [d Hd]. unfold read_sorting in Hd.
      by rewrite Hd.
    + apply read_sorting_not_wf in Hno. unfold read_sorting in Hno.
      by rewrite Hno.
  - intros d. apply appends_only_distribute_reads.
Qed.

Lemma has_char_app c (a b : string) :
  has_char c (a +:+ b) = has_char c a || has_char c b.
Proof.
  induction a as [|c' a IH]; [done|].
  rewrite string_app_cons. cbn [has_char]. by rewrite IH, orb_assoc.
Qed.

(** The files of a plain target are [target/target_...]. *)
Lemma plain_path t x :
  plain t = true → Py.path_join t (t +:+ x) = t +:+ "/" +:+ t +:+ x.
Proof.
  unfold plain. intros Hp.
  repeat (apply andb_prop in Hp as [Hp ?]).
  apply negb_true_iff in Hp. apply String.eqb_neq in Hp.
  assert (Hs : has_char "/" t = false) by by apply negb_true_iff.
  unfold Py.path_join.
  destruct (string_last_char t Hp) as (pre & cl & Ht & _).
  assert (He : Py.endswith t "/" = false).
  { rewrite Ht in Hs |- *. rewrite has_char_app in Hs.
    apply orb_false_elim in Hs as [_ Hcl]. cbn [has_char] in Hcl.
    rewrite orb_false_r in Hcl.
    rewrite (endswith_app pre (String cl "")) by done.
    cbn [String.eqb]. by rewrite Hcl. }
  destruct t as [|c t']; [done|].
  rewrite startswith_slash_app, startswith_cons.
  cbn [has_char] in Hs. apply orb_false_elim in Hs as [Hc _].
  rewrite bool_decide_eq_false_2.
  2:{ intros ->. by rewrite Ascii.eqb_refl in Hc. }
  change (String.eqb (String c t') "") with false. cbn [orb].
  by rewrite He.
Qed.

(** X14. After [main] on alignment lines of at least three fields whose
    targets are plain names, and one read file whose titles have a field,
    each request being served, the unpaired FASTA file of a plain target
    [t0], which is [t0/t0_unpaired.fasta], holds what it held before
    followed by the FASTA records, in the order of the read file, of exactly
    the reads for whose identifier some alignment line gives [t0].  The
    identifier is the first field of the title as it stands, a trailing [/1]
    or [/2] included, less its last two characters only when its last
    character has code point 1 or 2. *)
Theorem main_single_end_file (lines : list string) (source : list record)
    (merged : bool) (st : fs) (t0 : string) :
  Forall (λ line, (3 ≤ length (Py.split line))%nat) lines →
  plain_targets lines → plain t0 = true →
  Forall has_field source →
  unpaired_path t0 = t0 +:+ "/" +:+ t0 +:+ "_unpaired.fasta"
  ∧ content (run_on st (main lines [source] merged)) (unpaired_path t0)
    = content st (unpaired_path t0)
      +:+ join (map (λ rec, ">" +:+ single_end_id (first_field rec.1.1)
                            +:+ Py.nl +:+ rec.1.2 +:+ Py.nl)
                  (filter (λ rec, t0 ∈ hits_of lines
                                         (single_end_id (first_field rec.1.1)))
                     source)).
Proof.
  intros Hlines _ Hplain Hsource. split; [by apply plain_path|].
  destruct (read_sorting_wf _ Hlines) as [d Hd].
  unfold run_on. rewrite content_apply_log by apply main_appends_only.
  f_equal. rewrite (main_log_single _ _ _ _ Hd Hsource), appended_flat_map.
  rewrite <- (join_filter
                (λ rec : record,
                   t0 ∈ hits_of lines (single_end_id (first_field rec.1.1)))
                (λ rec : record,
                   ">" +:+ single_end_id (first_field rec.1.1) +:+ Py.nl
                   +:+ rec.1.2 +:+ Py.nl)
                source).
  f_equal. apply map_ext. intros rec. unfold single_key.
  rewrite strip_single_id.
  apply (appended_flat_map_targets _
           (fasta_record (single_end_id (first_field rec.1.1)) rec.1.2));
    [|apply hits_of_NoDup].
  intros t. apply appended_single_events.
Qed.

Lemma main_single_end_file_example :
  Forall (λ line, (3 ≤ length (Py.split line))%nat) example_hits
  ∧ plain_targets example_hits ∧ plain "6128" = true
  ∧ Forall has_field [("readA/1", "CCCC", "IIII"); ("readA", "AAAA", "IIII")]
  ∧ content (run_on (Fs ∅ ∅)
               (main example_hits
                  [[("readA/1", "CCCC", "IIII"); ("readA", "AAAA", "IIII")]]
                  false))
      "6128/6128_unpaired.fasta"
    = ">readA" +:+ Py.nl +:+ "AAAA" +:+ Py.nl.
Proof.
  assert (Hl : Forall (λ line, (3 ≤ length (Py.split line))%nat) example_hits).
  { repeat constructor. }
  assert (Hp : plain_targets example_hits).
  { repeat apply Forall_cons_2; try apply Forall_nil_2; by vm_compute. }
  assert (Hs : Forall has_field
                 [("readA/1", "CCCC", "IIII"); ("readA", "AAAA", "IIII")]).
  { repeat apply Forall_cons_2; try apply Forall_nil_2; by vm_compute. }
  split; [exact Hl|]. split; [exact Hp|]. split; [reflexivity|].
  split; [exact Hs|].
  etrans; [exact (proj2 (main_single_end_file example_hits _ false (Fs ∅ ∅)
                           "6128" Hl Hp eq_refl Hs))|].
  by vm_compute.
Defined.

(** X15. After [main] on alignment lines of at least three fields whose
    targets are plain names, and two read files of equal record count whose
    titles have a field, each request being served, the interleaved FASTA
    file of a plain target [t0], which is [t0/t0_interleaved.fasta], holds
    what it held before followed, in the order of the read files, by the two
    records (mate 1, then mate 2) of exactly the pairs that go to [t0]; with
    [merged] the interleaved FASTQ file [t0/t0_interleaved.fastq] gains the
    FASTQ records of the same pairs in the same way, and without [merged] it
    is unchanged. *)
Theorem main_paired_files (lines : list string)
    (source1 source2 : list record) (merged : bool) (st : fs) (t0 : string) :
  Forall (λ line, (3 ≤ length (Py.split line))%nat) lines →
  plain_targets lines → plain t0 = true →
  length source1 = length source2 →
  Forall has_field source1 → Forall has_field source2 →
  let after := run_on st (main lines [source1; source2] merged) in
  let pairs := filter (λ p, t0 ∈ pair_hits lines p) (zip source1 source2) in
  interleaved_fasta t0 = t0 +:+ "/" +:+ t0 +:+ "_interleaved.fasta"
  ∧ interleaved_fastq t0 = t0 +:+ "/" +:+ t0 +:+ "_interleaved.fastq"
  ∧ content after (interleaved_fasta t0)
    = content st (interleaved_fasta t0) +:+ join (map pair_fasta pairs)
  ∧ content after (interleaved_fastq t0)
    = content st (interleaved_fastq t0)
      +:+ (if merged then join (map pair_fastq pairs) else "").
Proof.
  intros Hlines _ Hplain Hlen H1 H2 after pairs.
  split; [by apply plain_path|]. split; [by apply plain_path|].
  destruct (read_sorting_wf _ Hlines) as [d Hd].
  unfold after, run_on. rewrite !content_apply_log by apply main_appends_only.
  rewrite (main_log_paired _ _ _ _ _ Hd Hlen H1 H2), !appended_flat_map.
  split; f_equal.
  - unfold pairs.
    rewrite <- (join_filter (λ p, t0 ∈ pair_hits lines p)).
    f_equal. apply map_ext. intros p.
    apply appended_flat_map_targets; [|apply pair_hits_NoDup].
    intros t. apply appended_paired_events_fasta.
  - destruct merged.
    + unfold pairs.
      rewrite <- (join_filter (λ p, t0 ∈ pair_hits lines p)).
      f_equal. apply map_ext. intros p.
      apply (appended_flat_map_targets _ (pair_fastq p));
        [|apply pair_hits_NoDup].
      intros t. apply appended_paired_events_fastq.
    + induction (zip source1 source2) as [|p ps IH]; [done|].
      cbn [map join foldr].
      change (foldr String.append "" ?l) with (join l). rewrite IH.
      rewrite (appended_flat_map_targets _ "" _ t0);
        [by case_decide| |apply pair_hits_NoDup].
      intros t. rewrite appended_paired_events_fastq. by case_decide.
Qed.

Lemma main_paired_files_example :
  Forall (λ line, (3 ≤ length (Py.split line))%nat) example_hits
  ∧ plain_targets example_hits ∧ plain "5968" = true
  ∧ length [("readA/1", "AAAA", "IIII")] = length [("readA/2", "CCCC", "JJJJ")]
  ∧ Forall has_field [("readA/1", "AAAA", "IIII")]
  ∧ Forall has_field [("readA/2", "CCCC", "JJJJ")]
  ∧ content (run_on (Fs ∅ ∅)
               (main example_hits
                  [[("readA/1", "AAAA", "IIII")]; [("readA/2", "CCCC", "JJJJ")]]
                  false))
      "5968/5968_interleaved.fasta"
    = ">readA" +:+ Py.nl +:+ "AAAA" +:+ Py.nl
      +:+ ">readA" +:+ Py.nl +:+ "CCCC" +:+ Py.nl.
Proof.
  assert (Hl : Forall (λ line, (3 ≤ length (Py.split line))%nat) example_hits).
  { repeat constructor. }
  assert (Hp : plain_targets example_hits).
  { repeat apply Forall_cons_2; try apply Forall_nil_2; by vm_compute. }
  assert (H1 : Forall has_field [("readA/1", "AAAA", "IIII")]).
  { apply Forall_cons_2; [by vm_compute|apply Forall_nil_2]. }
  assert (H2 : Forall has_field [("readA/2", "CCCC", "JJJJ")]).
  { apply Forall_cons_2; [by vm_compute|apply Forall_nil_2]. }
  split; [exact Hl|]. split; [exact Hp|]. split; [reflexivity|].
  split; [reflexivity|]. split; [exact H1|]. split; [exact H2|].
  etrans; [exact (proj1 (proj2 (proj2
                   (main_paired_files example_hits
                      [("readA/1", "AAAA", "IIII")]
                      [("readA/2", "CCCC", "JJJJ")] false (Fs ∅ ∅) "5968"
                      Hl Hp eq_refl eq_refl H1 H2))))|].
  by vm_compute.
Defined.

(** ** What the results depend on *)

Lemma hit_is_Some_iff line :
  is_Some (hit line) ↔ (3 ≤ length (Py.split line))%nat.
Proof.
  split; [|apply hit_is_Some]. unfold hit.
  destruct (Py.split line) as [|f0 [|f1 [|f2 fs]]]; simpl;
    try (by intros [? ?]). lia.
Qed.

Lemma Forall2_hit_wf lines lines' :
  Forall2 (λ line line', hit line = hit line') lines lines' →
  Forall (λ line, (3 ≤ length (Py.split line))%nat) lines →
  Forall (λ line, (3 ≤ length (Py.split line))%nat) lines'.
Proof.
  induction 1 as [|line line' lines lines' Hhit _ IH]; [done|].
  intros [Hline Hwf]%Forall_cons. constructor; [|by apply IH].
  apply hit_is_Some_iff. rewrite <- Hhit. by apply hit_is_Some_iff.
Qed.

Lemma Forall2_hit_targets_of r lines lines' :
  Forall2 (λ line line', hit line = hit line') lines lines' →
  targets_of r lines = targets_of r lines'.
Proof.
  unfold targets_of.
  induction 1 as [|line line' lines lines' Hhit _ IH]; [done|].
  cbn [omap list_omap]. by rewrite Hhit, IH.
Qed.

(** X16. [read_sorting] uses of a line only its field 0 and what follows
    the last hyphen of its field 2: two inputs whose lines agree, one by
    one, on these two (or both have fewer than three fields) give the same
    result.  So reference names that end alike after their last hyphen are
    one target. *)
Theorem read_sorting_depends_on_hits (lines lines' : list string) :
  Forall2 (λ line line', hit line = hit line') lines lines' →
  read_sorting lines = read_sorting lines'.
Proof.
  intros Hhits.
  destruct (decide (Forall (λ line, (3 ≤ length (Py.split line))%nat) lines))
    as [Hwf|Hno].
  - pose proof (Forall2_hit_wf _ _ Hhits Hwf) as Hwf'.
    destruct (read_sorting_wf _ Hwf) as [d Hd].
    destruct (read_sorting_wf _ Hwf') as [d' Hd'].
    rewrite Hd, Hd'. do 2 f_equal. apply map_eq. intros r.
    rewrite (read_sorting_lookup _ _ Hd), (read_sorting_lookup _ _ Hd').
    by rewrite (Forall2_hit_targets_of r _ _ Hhits).
  - rewrite (read_sorting_not_wf _ Hno). symmetry. apply read_sorting_not_wf.
    intros Hwf'. apply Hno. eapply Forall2_hit_wf; [|exact Hwf'].
    apply Forall2_flip. eapply Forall2_impl; [exact Hhits|]. by intros ?? ->.
Qed.

Lemma read_sorting_depends_on_hits_example :
  Forall2 (λ line line', hit line = hit line')
    ["readA 0 geneA-5968"] ["readA 16 other-ref-5968 100 60"]
  ∧ read_sorting ["readA 0 geneA-5968"]
    = read_sorting ["readA 16 other-ref-5968 100 60"].
Proof.
  assert (H : Forall2 (λ line line', hit line = hit line')
                ["readA 0 geneA-5968"] ["readA 16 other-ref-5968 100 60"]).
  { constructor; [by vm_compute|constructor]. }
  split; [exact H|]. exact (read_sorting_depends_on_hits _ _ H).
Defined.

Lemma bind_ext {A B} (m : M A) (f g : A → M B) :
  (∀ a, f a = g a) → (m ≫= f) = (m ≫= g).
Proof.
  intros Hext. destruct m as [l [e|a]]; [done|].
  unfold mbind, M_bind, bind. by rewrite Hext.
Qed.

Lemma item_same {A} (l l' : list A) i : l !! i = l' !! i → item l i = item l' i.
Proof. unfold item. by intros ->. Qed.

Lemma for_each_ext {A} (body body' : A → M unit) l :
  (∀ x, body x = body' x) → for_each l body = for_each l body'.
Proof.
  intros Hext. induction l as [|x l IH]; [done|].
  cbn [for_each]. by rewrite Hext, IH.
Qed.

Lemma for_each_Forall2 {A} (body : A → M unit) l l' :
  Forall2 (λ x y, body x = body y) l l' → for_each l body = for_each l' body.
Proof.
  induction 1 as [|x y l l' Hxy _ IH]; [done|].
  cbn [for_each]. by rewrite Hxy, IH.
Qed.

Lemma single_body_same d r r' :
  same_read r r' → single_body d r = single_body d r'.
Proof.
  destruct r as [[title seq] qual], r' as [[title' seq'] qual'].
  intros [Hf Hs]. cbn [fst snd] in Hf, Hs. subst seq'.
  unfold single_body. by rewrite (item_same _ _ _ Hf).
Qed.

Lemma paired_body_same d r1 r1' r2 r2' :
  same_read r1 r1' → same_read r2 r2' →
  paired_body d false r1 r2 = paired_body d false r1' r2'.
Proof.
  destruct r1 as [[title1 seq1] qual1], r1' as [[title1' seq1'] qual1'].
  destruct r2 as [[title2 seq2] qual2], r2' as [[title2' seq2'] qual2'].
  intros [Hf1 Hs1] [Hf2 Hs2]. cbn [fst snd] in Hf1, Hs1, Hf2, Hs2.
  subst seq1' seq2'. unfold paired_body.
  rewrite (item_same _ _ _ Hf1). apply bind_ext. intros ID1. cbv zeta.
  rewrite (item_same _ _ _ Hf2). apply bind_ext. intros ID2.
  repeat case_match; try done; by apply for_each_ext.
Qed.

Lemma paired_loop_same d s1 s1' : ∀ s2 s2',
  Forall2 same_read s1 s1' → Forall2 same_read s2 s2' →
  paired_loop d false s1 (Some s2) = paired_loop d false s1' (Some s2').
Proof.
  intros s2 s2' H1. revert s2 s2'.
  induction H1 as [|r1 r1' s1 s1' Hr1 _ IH]; intros s2 s2' H2; [done|].
  destruct H2 as [|r2 r2' s2 s2' Hr2 H2]; [done|].
  rewrite !paired_loop_cons, (paired_body_same _ _ _ _ _ Hr1 Hr2).
  apply bind_ext. intros _. by apply IH.
Qed.

(** X17. The output depends on a read only through the first field of its
    title and its sequence.  Two single-end inputs whose records agree, one
    by one, on these give the same run, whatever the rest of the titles and
    the quality strings are; and so do two paired inputs when [merged] is
    not set. *)
Theorem distribute_reads_depends_on (d : gmap string (list string))
    (single merged : bool) (s s' s1 s1' s2 s2' : list record) :
  Forall2 same_read s s' →
  Forall2 same_read s1 s1' → Forall2 same_read s2 s2' →
  distribute_reads [s] d single merged = distribute_reads [s'] d single merged
  ∧ distribute_reads [s1; s2] d single false
    = distribute_reads [s1'; s2'] d single false.
Proof.
  intros Hs H1 H2. split.
  - rewrite !distribute_reads_single. apply for_each_Forall2.
    eapply Forall2_impl; [exact Hs|]. intros r r'. apply single_body_same.
  - rewrite !distribute_reads_paired. by apply paired_loop_same.
Qed.

Lemma distribute_reads_depends_on_example :
  Forall2 same_read [("readA 1:N:0", "AAAA", "IIII")] [("readA", "AAAA", "####")]
  ∧ Forall2 same_read [("readX/1 a", "ACGT", "IIII")] [("readX/1", "ACGT", "FFFF")]
  ∧ Forall2 same_read [("readX/2 b", "TTTT", "JJJJ")] [("readX/2", "TTTT", "FFFF")]
  ∧ distribute_reads [[("readA 1:N:0", "AAAA", "IIII")]] example_index true true
    = distribute_reads [[("readA", "AAAA", "####")]] example_index true true
  ∧ distribute_reads [[("readX/1 a", "ACGT", "IIII")]; [("readX/2 b", "TTTT", "JJJJ")]]
      {[ "readX" := ["7"] ]} true false
    = distribute_reads [[("readX/1", "ACGT", "FFFF")]; [("readX/2", "TTTT", "FFFF")]]
        {[ "readX" := ["7"] ]} true false.
Proof.
  assert (Hs : Forall2 same_read [("readA 1:N:0", "AAAA", "IIII")]
                 [("readA", "AAAA", "####")]).
  { constructor; [by vm_compute|constructor]. }
  assert (H1 : Forall2 same_read [("readX/1 a", "ACGT", "IIII")]
                 [("readX/1", "ACGT", "FFFF")]).
  { constructor; [by vm_compute|constructor]. }
  assert (H2 : Forall2 same_read [("readX/2 b", "TTTT", "JJJJ")]
                 [("readX/2", "TTTT", "FFFF")]).
  { constructor; [by vm_compute|constructor]. }
  split; [exact Hs|]. split; [exact H1|]. split; [exact H2|].
  split.
  - exact (proj1 (distribute_reads_depends_on example_index true true
                    _ _ _ _ _ _ Hs H1 H2)).
  - exact (proj2 (distribute_reads_depends_on {[ "readX" := ["7"] ]} true true
                    _ _ _ _ _ _ Hs H1 H2)).
Defined.
